(** * Single-key and multi-key wrappers of the Aptos TypeScript SDK

    A shallow embedding of [src/core/crypto/singleKey.ts] ([AnyPublicKey],
    [AnySignature]) and of the multi-key module ([bitCount], [MultiKey],
    [MultiKeySignature]), with the properties of their serialization,
    bitmap handling and verification dispatch.

    Conventions.
    - A JavaScript [number] is a [Z]; the code only ever handles integers
      here (indices, counts, bytes), fractional numbers are outside the model.
    - A [Uint8Array] is a [list byte]; a store into it wraps modulo 256 and a
      store or load outside its bounds does what JavaScript does (the store
      is dropped, the load gives [undefined]).
    - A [throw new Error(...)] is an [Err e] result, one constructor of
      [Error] per throw site.
    - A [Serializer] is modelled by the bytes a call appends to it, a
      [Deserializer] by the bytes that remain to be read. *)

From Stdlib Require Import ZArith NArith List Bool Lia.
From Stdlib Require Import Strings.Byte.
From Stdlib Require Import Sorting.Permutation.
Import ListNotations.

Local Open Scope Z_scope.

(** ** Results and errors *)

Inductive Error : Type :=
| UnknownVariant          (* "Unknown variant index for ..." *)
| InvalidThreshold        (* both checks of the MultiKey constructor *)
| IndexOutOfRange         (* "... is out of public keys range", "Cannot have a signature larger than ..." *)
| DuplicateIndex          (* "Duplicate bit(s) detected" *)
| TooManySignatures       (* "The number of signatures cannot be greater than ..." *)
| InvalidBitmapLength     (* "bitmap length should be ..." *)
| SignatureCountMismatch  (* "Expecting ... signatures from the bitmap, but got ..." *)
| TruncatedInput          (* the deserializer ran out of bytes *)
| ValueOutOfRange         (* a serializer range check *)
| Unimplemented.          (* "not implemented" *)

Inductive Result (A : Type) : Type :=
| Ok  : A -> Result A
| Err : Error -> Result A.

Arguments Ok {A} _.
Arguments Err {A} _.

Definition bind {A B : Type} (r : Result A) (k : A -> Result B) : Result B :=
  match r with
  | Ok a => k a
  | Err e => Err e
  end.

Notation "x <- r ;; k" := (bind r (fun x => k))
  (at level 61, r at next level, right associativity).
Notation "' pat <- r ;; k" := (bind r (fun x => match x with pat => k end))
  (at level 61, pat pattern, r at next level, right associativity).

(** ** JavaScript integer operators *)

Module JS.

(** [ToInt32]: the bitwise operators first bring their operands to a signed
    32-bit integer. *)
Definition toInt32 (z : Z) : Z := (z + 2 ^ 31) mod 2 ^ 32 - 2 ^ 31.

(** [a >> n]: sign-propagating shift, the count taken modulo 32. *)
Definition shr (a n : Z) : Z := Z.shiftr (toInt32 a) (n mod 32).

(** [a & b] and [a | b]. *)
Definition and (a b : Z) : Z := Z.land (toInt32 a) (toInt32 b).
Definition or (a b : Z) : Z := Z.lor (toInt32 a) (toInt32 b).

(** [a % b]: the remainder has the sign of the dividend. *)
Definition rem (a b : Z) : Z := Z.rem a b.

(** [Math.floor(a / b)] on integers. *)
Definition floor_div (a b : Z) : Z := Z.div a b.

End JS.

(** ** Bytes and [Uint8Array] *)

Definition Uint8Array : Type := list byte.

Definition Z_of_byte (b : byte) : Z := Z.of_N (Byte.to_N b).

(** The conversion a [Uint8Array] store applies to a number: modulo 256. *)
Definition byte_of_Z (z : Z) : byte :=
  match Byte.of_N (Z.to_N (z mod 256)) with
  | Some b => b
  | None => x00
  end.

(** [arr[i]] as an operand of a bitwise operator: [undefined] outside the
    array, which [ToInt32] turns into 0. *)
Definition u8_get (arr : Uint8Array) (i : Z) : Z :=
  if i <? 0 then 0
  else match nth_error arr (Z.to_nat i) with
       | Some b => Z_of_byte b
       | None => 0
       end.

Fixpoint set_nth (arr : Uint8Array) (n : nat) (b : byte) : Uint8Array :=
  match arr, n with
  | [], _ => []
  | _ :: tl, O => b :: tl
  | hd :: tl, S n' => hd :: set_nth tl n' b
  end.

(** [arr[i] = v]: dropped outside the array, wrapped modulo 256 inside. *)
Definition u8_set (arr : Uint8Array) (i : Z) (v : Z) : Uint8Array :=
  if i <? 0 then arr else set_nth arr (Z.to_nat i) (byte_of_Z v).

(** ** [bitCount] *)

(** <<
    function bitCount(byte: number) {
      let n = byte;
      n -= (n >> 1) & 0x55555555;
      n = (n & 0x33333333) + ((n >> 2) & 0x33333333);
      return (((n + (n >> 4)) & 0xf0f0f0f) * 0x1010101) >> 24;
    }
    >>
    The product stays below 2^53, so it is exact as a JavaScript number. *)
Definition bitCount (byte : Z) : Z :=
  let n := byte in
  let n := n - JS.and (JS.shr n 1) 0x55555555 in
  let n := JS.and n 0x33333333 + JS.and (JS.shr n 2) 0x33333333 in
  JS.shr (JS.and (n + JS.shr n 4) 0xf0f0f0f * 0x1010101) 24.

(** [bitmap.reduce((acc, byte) => acc + bitCount(byte), 0)] *)
Definition nSignatures (bitmap : Uint8Array) : Z :=
  fold_left (fun acc byte => acc + bitCount (Z_of_byte byte)) bitmap 0.

(** The number of set bits, read off the binary representation. *)
Definition popcount8 (b : Z) : Z :=
  fold_right (fun i acc => (if Z.testbit b (Z.of_nat i) then 1 else 0) + acc)
             0 (seq 0 8).

Fixpoint popcount (bitmap : Uint8Array) : Z :=
  match bitmap with
  | [] => 0
  | b :: tl => popcount8 (Z_of_byte b) + popcount tl
  end.

(** ** The canonical codec (BCS) *)

Module BCS.

(** Modelled from the spec: the [Serializer] and [Deserializer] classes of
    the SDK's bcs module are not among the sources.  Section 6 gives the
    layout: a variable-length unsigned integer is LEB128 in its smallest
    form, a byte string is its length followed by its bytes, a sequence is
    its element count followed by its elements, a fixed-width integer
    takes its width.  A serializer rejects a number outside the range of
    the integer type it writes; a deserializer fails when its input ends
    early (section 7, truncated input). *)

Definition MAX_U8_NUMBER : Z := 255.
Definition MAX_U32_NUMBER : Z := 2 ^ 32 - 1.

Definition serializeU8 (value : Z) : Result (list byte) :=
  if (0 <=? value) && (value <=? MAX_U8_NUMBER)
  then Ok [byte_of_Z value]
  else Err ValueOutOfRange.

(** Seven bits per byte, least significant group first, the high bit set on
    every byte but the last.  A 32-bit value has at most five groups. *)
Fixpoint uleb128 (groups : nat) (value : Z) : list byte :=
  match groups with
  | O => []
  | S g =>
      if value <? 128 then [byte_of_Z value]
      else byte_of_Z (value mod 128 + 128) :: uleb128 g (value / 128)
  end.

Definition serializeU32AsUleb128 (value : Z) : Result (list byte) :=
  if (0 <=? value) && (value <=? MAX_U32_NUMBER)
  then Ok (uleb128 5 value)
  else Err ValueOutOfRange.

Definition serializeFixedBytes (value : list byte) : Result (list byte) :=
  Ok value.

Definition serializeBytes (value : list byte) : Result (list byte) :=
  len <- serializeU32AsUleb128 (Z.of_nat (length value)) ;;
  Ok (len ++ value).

Fixpoint serializeElements {A : Type} (ser : A -> Result (list byte))
         (values : list A) : Result (list byte) :=
  match values with
  | [] => Ok []
  | v :: tl =>
      hd <- ser v ;;
      rest <- serializeElements ser tl ;;
      Ok (hd ++ rest)
  end.

Definition serializeVector {A : Type} (ser : A -> Result (list byte))
           (values : list A) : Result (list byte) :=
  len <- serializeU32AsUleb128 (Z.of_nat (length values)) ;;
  body <- serializeElements ser values ;;
  Ok (len ++ body).

(** A deserializer consumes a prefix of the input and returns what is left. *)
Definition Deserializer (A : Type) : Type := list byte -> Result (A * list byte).

Definition deserializeU8 : Deserializer Z :=
  fun input =>
    match input with
    | [] => Err TruncatedInput
    | b :: rest => Ok (Z_of_byte b, rest)
    end.

Fixpoint uleb128_decode (input : list byte) (shift value : Z)
  : Result (Z * list byte) :=
  match input with
  | [] => Err TruncatedInput
  | b :: rest =>
      let value := value + (Z_of_byte b mod 128) * 2 ^ shift in
      if Z_of_byte b <? 128
      then if value <=? MAX_U32_NUMBER then Ok (value, rest)
           else Err ValueOutOfRange
      else uleb128_decode rest (shift + 7) value
  end.

Definition deserializeUleb128AsU32 : Deserializer Z :=
  fun input => uleb128_decode input 0 0.

Fixpoint take_bytes (n : nat) (input : list byte)
  : Result (list byte * list byte) :=
  match n with
  | O => Ok ([], input)
  | S n' =>
      match input with
      | [] => Err TruncatedInput
      | b :: rest =>
          '(bs, rest') <- take_bytes n' rest ;;
          Ok (b :: bs, rest')
      end
  end.

Definition deserializeFixedBytes (len : nat) : Deserializer (list byte) :=
  take_bytes len.

Definition deserializeBytes : Deserializer (list byte) :=
  fun input =>
    '(len, rest) <- deserializeUleb128AsU32 input ;;
    take_bytes (Z.to_nat len) rest.

Fixpoint deserializeElements {A : Type} (de : Deserializer A) (n : nat)
  : Deserializer (list A) :=
  fun input =>
    match n with
    | O => Ok ([], input)
    | S n' =>
        '(x, rest) <- de input ;;
        '(xs, rest') <- deserializeElements de n' rest ;;
        Ok (x :: xs, rest')
    end.

Definition deserializeVector {A : Type} (de : Deserializer A)
  : Deserializer (list A) :=
  fun input =>
    '(len, rest) <- deserializeUleb128AsU32 input ;;
    deserializeElements de (Z.to_nat len) rest.

End BCS.

(** ** Primitive keys and signatures *)

(** Modelled from the spec: the Ed25519 and Secp256k1 classes are not among
    the sources.  Each is a class of its own ([instanceof] tells them apart)
    carrying a byte string of fixed length that serializes as those raw
    bytes (section 6: "fixed-length byte string, length determined by
    scheme"; section 8: tag, then the raw key bytes).  Verification is an
    opaque primitive with a boolean result. *)

Record Ed25519PublicKey : Type := { Ed25519PublicKey_bytes : list byte }.
Record Ed25519Signature : Type := { Ed25519Signature_bytes : list byte }.
Record Secp256k1PublicKey : Type := { Secp256k1PublicKey_bytes : list byte }.
Record Secp256k1Signature : Type := { Secp256k1Signature_bytes : list byte }.

(** [HexInput] messages are opaque to this code. *)
Definition HexInput : Type := list byte.

(** What the wrappers use of the primitive classes: the byte length each
    decoder reads and the two verification routines. *)
Record Primitives : Type := {
  Ed25519PublicKey_LENGTH : nat;
  Ed25519Signature_LENGTH : nat;
  Secp256k1PublicKey_LENGTH : nat;
  Secp256k1Signature_LENGTH : nat;
  Ed25519PublicKey_verifySignature :
    Ed25519PublicKey -> HexInput -> Ed25519Signature -> bool;
  Secp256k1PublicKey_verifySignature :
    Secp256k1PublicKey -> HexInput -> Secp256k1Signature -> bool
}.

Definition Ed25519PublicKey_deserialize (P : Primitives)
  : BCS.Deserializer Ed25519PublicKey :=
  fun input =>
    '(bs, rest) <- BCS.deserializeFixedBytes (Ed25519PublicKey_LENGTH P) input ;;
    Ok ({| Ed25519PublicKey_bytes := bs |}, rest).

Definition Ed25519Signature_deserialize (P : Primitives)
  : BCS.Deserializer Ed25519Signature :=
  fun input =>
    '(bs, rest) <- BCS.deserializeFixedBytes (Ed25519Signature_LENGTH P) input ;;
    Ok ({| Ed25519Signature_bytes := bs |}, rest).

Definition Secp256k1PublicKey_deserialize (P : Primitives)
  : BCS.Deserializer Secp256k1PublicKey :=
  fun input =>
    '(bs, rest) <- BCS.deserializeFixedBytes (Secp256k1PublicKey_LENGTH P) input ;;
    Ok ({| Secp256k1PublicKey_bytes := bs |}, rest).

Definition Secp256k1Signature_deserialize (P : Primitives)
  : BCS.Deserializer Secp256k1Signature :=
  fun input =>
    '(bs, rest) <- BCS.deserializeFixedBytes (Secp256k1Signature_LENGTH P) input ;;
    Ok ({| Secp256k1Signature_bytes := bs |}, rest).

(** ** Enumerations of the types module *)

(** Modelled from the spec: section 3 gives the variant discriminants,
    Ed25519 = 0 and Secp256k1 = 1, for keys and signatures alike. *)
Inductive AnyPublicKeyVariant : Type :=
| AnyPublicKeyVariant_Ed25519
| AnyPublicKeyVariant_Secp256k1.

Definition AnyPublicKeyVariant_value (v : AnyPublicKeyVariant) : Z :=
  match v with
  | AnyPublicKeyVariant_Ed25519 => 0
  | AnyPublicKeyVariant_Secp256k1 => 1
  end.

Inductive AnySignatureVariant : Type :=
| AnySignatureVariant_Ed25519
| AnySignatureVariant_Secp256k1.

Definition AnySignatureVariant_value (v : AnySignatureVariant) : Z :=
  match v with
  | AnySignatureVariant_Ed25519 => 0
  | AnySignatureVariant_Secp256k1 => 1
  end.

(** The enumeration [SigningSchemeInput] is declared in the types module,
    which is not among the sources, and the spec does not give its values:
    the two members the code uses are taken as parameters. *)
Record SigningSchemeInput : Type := {
  SigningSchemeInput_Ed25519 : Z;
  SigningSchemeInput_Secp256k1Ecdsa : Z
}.

(** ** [AnySignature] (singleKey.ts) *)

Module AnySignature.

(** [type SignatureInput = Ed25519Signature | Secp256k1Signature] *)
Inductive SignatureInput : Type :=
| OfEd25519 (s : Ed25519Signature)
| OfSecp256k1 (s : Secp256k1Signature).

Record t : Type := {
  signature : SignatureInput;
  variant : AnySignatureVariant
}.

(** The constructor is public: it stores the two arguments as given. *)
Definition constructor (signature : SignatureInput) (variant : AnySignatureVariant) : t :=
  {| signature := signature; variant := variant |}.

(** The final [else] of the source, "Unsupported signature type", cannot be
    reached from a [SignatureInput]. *)
Definition fromSignature (signature : SignatureInput) : t :=
  let variantIndex :=
    match signature with
    | OfEd25519 _ => AnySignatureVariant_Ed25519
    | OfSecp256k1 _ => AnySignatureVariant_Secp256k1
    end in
  constructor signature variantIndex.

(** The argument [serialize] passes to [serializeU32AsUleb128]: chosen by
    the [instanceof] tests, among the members of [SigningSchemeInput]. *)
Definition serialize_tag (SSI : SigningSchemeInput) (s : t) : Z :=
  match signature s with
  | OfEd25519 _ => SigningSchemeInput_Ed25519 SSI
  | OfSecp256k1 _ => SigningSchemeInput_Secp256k1Ecdsa SSI
  end.

Definition serialize (SSI : SigningSchemeInput) (s : t) : Result (list byte) :=
  match signature s with
  | OfEd25519 sig =>
      tag <- BCS.serializeU32AsUleb128 (SigningSchemeInput_Ed25519 SSI) ;;
      body <- BCS.serializeFixedBytes (Ed25519Signature_bytes sig) ;;
      Ok (tag ++ body)
  | OfSecp256k1 sig =>
      tag <- BCS.serializeU32AsUleb128 (SigningSchemeInput_Secp256k1Ecdsa SSI) ;;
      body <- BCS.serializeFixedBytes (Secp256k1Signature_bytes sig) ;;
      Ok (tag ++ body)
  end.

Definition deserialize (P : Primitives) : BCS.Deserializer t :=
  fun input =>
    '(variantIndex, rest) <- BCS.deserializeUleb128AsU32 input ;;
    if variantIndex =? AnySignatureVariant_value AnySignatureVariant_Ed25519 then
      '(sig, rest') <- Ed25519Signature_deserialize P rest ;;
      Ok (constructor (OfEd25519 sig) AnySignatureVariant_Ed25519, rest')
    else if variantIndex =? AnySignatureVariant_value AnySignatureVariant_Secp256k1 then
      '(sig, rest') <- Secp256k1Signature_deserialize P rest ;;
      Ok (constructor (OfSecp256k1 sig) AnySignatureVariant_Secp256k1, rest')
    else Err UnknownVariant.

(** The pairing invariant: the stored variant names the class of the
    wrapped signature. *)
Definition paired (s : t) : bool :=
  match signature s, variant s with
  | OfEd25519 _, AnySignatureVariant_Ed25519 => true
  | OfSecp256k1 _, AnySignatureVariant_Secp256k1 => true
  | _, _ => false
  end.

(** The bytes of the wrapped signature. *)
Definition inner_bytes (s : t) : list byte :=
  match signature s with
  | OfEd25519 sig => Ed25519Signature_bytes sig
  | OfSecp256k1 sig => Secp256k1Signature_bytes sig
  end.

(** The wrapped signature has the length of its scheme (what the primitive
    classes accept). *)
Definition well_sized (P : Primitives) (s : t) : Prop :=
  match signature s with
  | OfEd25519 sig => length (Ed25519Signature_bytes sig) = Ed25519Signature_LENGTH P
  | OfSecp256k1 sig => length (Secp256k1Signature_bytes sig) = Secp256k1Signature_LENGTH P
  end.

End AnySignature.

(** ** [AnyPublicKey] (singleKey.ts) *)

Module AnyPublicKey.

(** [type PublicKeyInput = Ed25519PublicKey | Secp256k1PublicKey] *)
Inductive PublicKeyInput : Type :=
| OfEd25519 (k : Ed25519PublicKey)
| OfSecp256k1 (k : Secp256k1PublicKey).

Record t : Type := {
  publicKey : PublicKeyInput;
  variant : AnyPublicKeyVariant
}.

(** The constructor is [protected]: only [fromPublicKey] and [deserialize]
    call it. *)
Definition constructor (publicKey : PublicKeyInput) (variant : AnyPublicKeyVariant) : t :=
  {| publicKey := publicKey; variant := variant |}.

Definition fromPublicKey (publicKey : PublicKeyInput) : t :=
  let variantIndex :=
    match publicKey with
    | OfEd25519 _ => AnyPublicKeyVariant_Ed25519
    | OfSecp256k1 _ => AnyPublicKeyVariant_Secp256k1
    end in
  constructor publicKey variantIndex.

Definition verifySignature (P : Primitives) (k : t)
           (message : HexInput) (signature : AnySignature.t) : bool :=
  match publicKey k, AnySignature.signature signature with
  | OfEd25519 pk, AnySignature.OfEd25519 sig =>
      Ed25519PublicKey_verifySignature P pk message sig
  | OfSecp256k1 pk, AnySignature.OfSecp256k1 sig =>
      Secp256k1PublicKey_verifySignature P pk message sig
  | _, _ => false
  end.

Definition serialize_key (publicKey : PublicKeyInput) : Result (list byte) :=
  match publicKey with
  | OfEd25519 pk => BCS.serializeFixedBytes (Ed25519PublicKey_bytes pk)
  | OfSecp256k1 pk => BCS.serializeFixedBytes (Secp256k1PublicKey_bytes pk)
  end.

Definition serialize (k : t) : Result (list byte) :=
  tag <- BCS.serializeU32AsUleb128 (AnyPublicKeyVariant_value (variant k)) ;;
  body <- serialize_key (publicKey k) ;;
  Ok (tag ++ body).

Definition deserialize (P : Primitives) : BCS.Deserializer t :=
  fun input =>
    '(variantIndex, rest) <- BCS.deserializeUleb128AsU32 input ;;
    if variantIndex =? AnyPublicKeyVariant_value AnyPublicKeyVariant_Ed25519 then
      '(pk, rest') <- Ed25519PublicKey_deserialize P rest ;;
      Ok (constructor (OfEd25519 pk) AnyPublicKeyVariant_Ed25519, rest')
    else if variantIndex =? AnyPublicKeyVariant_value AnyPublicKeyVariant_Secp256k1 then
      '(pk, rest') <- Secp256k1PublicKey_deserialize P rest ;;
      Ok (constructor (OfSecp256k1 pk) AnyPublicKeyVariant_Secp256k1, rest')
    else Err UnknownVariant.

Definition isEd25519 (k : t) : bool :=
  AnyPublicKeyVariant_value (variant k) =? AnyPublicKeyVariant_value AnyPublicKeyVariant_Ed25519.

Definition isSecp256k1 (k : t) : bool :=
  AnyPublicKeyVariant_value (variant k) =? AnyPublicKeyVariant_value AnyPublicKeyVariant_Secp256k1.

Definition paired (k : t) : bool :=
  match publicKey k, variant k with
  | OfEd25519 _, AnyPublicKeyVariant_Ed25519 => true
  | OfSecp256k1 _, AnyPublicKeyVariant_Secp256k1 => true
  | _, _ => false
  end.

Definition well_sized (P : Primitives) (k : t) : Prop :=
  match publicKey k with
  | OfEd25519 pk => length (Ed25519PublicKey_bytes pk) = Ed25519PublicKey_LENGTH P
  | OfSecp256k1 pk => length (Secp256k1PublicKey_bytes pk) = Secp256k1PublicKey_LENGTH P
  end.

(** The keys and signatures of one scheme: what [verifySignature] tests
    with [instanceof]. *)
Definition same_scheme (k : t) (s : AnySignature.t) : bool :=
  match publicKey k, AnySignature.signature s with
  | OfEd25519 _, AnySignature.OfEd25519 _ => true
  | OfSecp256k1 _, AnySignature.OfSecp256k1 _ => true
  | _, _ => false
  end.

(** The two stored discriminants name the same scheme. *)
Definition variants_match (k : t) (s : AnySignature.t) : bool :=
  AnyPublicKeyVariant_value (variant k)
  =? AnySignatureVariant_value (AnySignature.variant s).

(** The primitive verification of a key and a signature of one scheme. *)
Definition primitive_verifies (P : Primitives) (k : t)
           (message : HexInput) (s : AnySignature.t) : Prop :=
  match publicKey k, AnySignature.signature s with
  | OfEd25519 pk, AnySignature.OfEd25519 sig =>
      Ed25519PublicKey_verifySignature P pk message sig = true
  | OfSecp256k1 pk, AnySignature.OfSecp256k1 sig =>
      Secp256k1PublicKey_verifySignature P pk message sig = true
  | _, _ => False
  end.

End AnyPublicKey.

(** ** Building a bitmap *)

(** Bits are read from left to right: [0b10000000] is the first bit of a byte. *)
Definition firstBitInByte : Z := 128.

(** The four statements both [createBitmap] loops end with:
    <<
      const byteOffset = Math.floor(bit / 8);
      let byte = bitmap[byteOffset];
      byte |= firstBitInByte >> bit % 8;
      bitmap[byteOffset] = byte;
    >> *)
Definition set_bit (bitmap : Uint8Array) (bit : Z) : Uint8Array :=
  let byteOffset := JS.floor_div bit 8 in
  let byte := u8_get bitmap byteOffset in
  let byte := JS.or byte (JS.shr firstBitInByte (JS.rem bit 8)) in
  u8_set bitmap byteOffset byte.

(** [dupCheckSet.has(bit)] on the set kept as the list of the bits added. *)
Definition set_has (dupCheckSet : list Z) (bit : Z) : bool :=
  existsb (Z.eqb bit) dupCheckSet.

(** Bit [i] of a bitmap, counted from the most significant bit of byte 0. *)
Definition bitmap_bit (bitmap : Uint8Array) (i : Z) : bool :=
  Z.testbit (u8_get bitmap (i / 8)) (7 - i mod 8).

(** The positions a four-byte bitmap has a bit for. *)
Definition in_slot (bit : Z) : bool := (0 <=? bit) && (bit <? 32).

(** ** [MultiKey] *)

Module MultiKey.

(** [type PublicKeyInput = Ed25519PublicKey | Secp256k1PublicKey | AnyPublicKey] *)
Inductive PublicKeyInput : Type :=
| OfEd25519 (k : Ed25519PublicKey)
| OfSecp256k1 (k : Secp256k1PublicKey)
| OfAnyPublicKey (k : AnyPublicKey.t).

Record t : Type := {
  publicKeys : list AnyPublicKey.t;
  signaturesRequired : Z
}.

(** [publicKey instanceof AnyPublicKey ? publicKey : AnyPublicKey.fromPublicKey(publicKey)] *)
Definition normalize (publicKey : PublicKeyInput) : AnyPublicKey.t :=
  match publicKey with
  | OfAnyPublicKey k => k
  | OfEd25519 k => AnyPublicKey.fromPublicKey (AnyPublicKey.OfEd25519 k)
  | OfSecp256k1 k => AnyPublicKey.fromPublicKey (AnyPublicKey.OfSecp256k1 k)
  end.

Definition constructor (publicKeys : list PublicKeyInput) (signaturesRequired : Z)
  : Result t :=
  if signaturesRequired <? 1 then Err InvalidThreshold
  else if Z.of_nat (length publicKeys) <? signaturesRequired then Err InvalidThreshold
  else Ok {| publicKeys := map normalize publicKeys;
             signaturesRequired := signaturesRequired |}.

(** The body of [bits.forEach((bit, idx) => ...)], from position [idx] on,
    over the bitmap and the duplicate set built so far. *)
Fixpoint createBitmap_loop (n : Z) (bits : list Z) (idx : Z)
         (dupCheckSet : list Z) (bitmap : Uint8Array) : Result Uint8Array :=
  match bits with
  | [] => Ok bitmap
  | bit :: rest =>
      if idx + 1 >? n then Err IndexOutOfRange
      else if set_has dupCheckSet bit then Err DuplicateIndex
      else createBitmap_loop n rest (idx + 1) (bit :: dupCheckSet) (set_bit bitmap bit)
  end.

Definition createBitmap (mk : t) (bits : list Z) : Result Uint8Array :=
  createBitmap_loop (Z.of_nat (length (publicKeys mk))) bits 0 [] [x00; x00; x00; x00].

Definition verifySignature (mk : t) (message : HexInput)
           (signature : list AnySignature.t) : Result bool :=
  Err Unimplemented.

Definition serialize (mk : t) : Result (list byte) :=
  keys <- BCS.serializeVector AnyPublicKey.serialize (publicKeys mk) ;;
  threshold <- BCS.serializeU8 (signaturesRequired mk) ;;
  Ok (keys ++ threshold).

Definition deserialize (P : Primitives) : BCS.Deserializer t :=
  fun input =>
    '(keys, rest) <- BCS.deserializeVector (AnyPublicKey.deserialize P) input ;;
    '(signaturesRequired, rest') <- BCS.deserializeU8 rest ;;
    mk <- constructor (map OfAnyPublicKey keys) signaturesRequired ;;
    Ok (mk, rest').

(** Modelled from the spec: [bcsToBytes()] belongs to the [Serializable]
    base class, which is not among the sources; it gives the canonical byte
    encoding of the value (section 4.1), the bytes [serialize] writes to a
    fresh serializer.  [toUint8Array()] returns them, and [authKey()] hands
    them to the authentication-key derivation. *)
Definition bcsToBytes (mk : t) : Result (list byte) := serialize mk.

Definition toUint8Array (mk : t) : Result (list byte) := bcsToBytes mk.

End MultiKey.

(** ** [MultiKeySignature] *)

Module MultiKeySignature.

Definition BITMAP_LEN : Z := 4.
Definition MAX_SIGNATURES_SUPPORTED : Z := BITMAP_LEN * 8.

(** [type SignatureInput = Ed25519Signature | Secp256k1Signature | AnySignature] *)
Inductive SignatureInput : Type :=
| OfEd25519 (s : Ed25519Signature)
| OfSecp256k1 (s : Secp256k1Signature)
| OfAnySignature (s : AnySignature.t).

(** [bitmap: Uint8Array | number[]] *)
Inductive BitmapInput : Type :=
| OfUint8Array (bitmap : Uint8Array)
| OfBits (bits : list Z).

Record t : Type := {
  signatures : list AnySignature.t;
  bitmap : Uint8Array
}.

Definition normalize (signature : SignatureInput) : AnySignature.t :=
  match signature with
  | OfAnySignature s => s
  | OfEd25519 s => AnySignature.fromSignature (AnySignature.OfEd25519 s)
  | OfSecp256k1 s => AnySignature.fromSignature (AnySignature.OfSecp256k1 s)
  end.

Fixpoint createBitmap_loop (bits : list Z) (dupCheckSet : list Z)
         (bitmap : Uint8Array) : Result Uint8Array :=
  match bits with
  | [] => Ok bitmap
  | bit :: rest =>
      if bit >=? MAX_SIGNATURES_SUPPORTED then Err IndexOutOfRange
      else if set_has dupCheckSet bit then Err DuplicateIndex
      else createBitmap_loop rest (bit :: dupCheckSet) (set_bit bitmap bit)
  end.

Definition createBitmap (bits : list Z) : Result Uint8Array :=
  createBitmap_loop bits [] [x00; x00; x00; x00].

(** The bitmap the constructor keeps: built from the positions when it is
    given a [number[]], the array itself when it has [BITMAP_LEN] bytes. *)
Definition constructor_bitmap (bitmap : BitmapInput) : Result Uint8Array :=
  match bitmap with
  | OfBits bits => createBitmap bits
  | OfUint8Array arr =>
      if negb (Z.of_nat (length arr) =? BITMAP_LEN) then Err InvalidBitmapLength
      else Ok arr
  end.

Definition constructor (signatures : list SignatureInput) (bitmap : BitmapInput)
  : Result t :=
  if Z.of_nat (length signatures) >? MAX_SIGNATURES_SUPPORTED then Err TooManySignatures
  else
    let this_signatures := map normalize signatures in
    this_bitmap <- constructor_bitmap bitmap ;;
    let n := nSignatures this_bitmap in
    if negb (n =? Z.of_nat (length this_signatures)) then Err SignatureCountMismatch
    else Ok {| signatures := this_signatures; bitmap := this_bitmap |}.

Definition serialize (SSI : SigningSchemeInput) (s : t) : Result (list byte) :=
  bm <- BCS.serializeBytes (bitmap s) ;;
  sigs <- BCS.serializeElements (AnySignature.serialize SSI) (signatures s) ;;
  Ok (bm ++ sigs).

(** [for (let i = 0; i < nSignatures; i += 1)]: one [AnySignature] per turn. *)
Definition deserialize (P : Primitives) : BCS.Deserializer t :=
  fun input =>
    '(bitmap, rest) <- BCS.deserializeBytes input ;;
    let n := nSignatures bitmap in
    '(signatures, rest') <-
      BCS.deserializeElements (AnySignature.deserialize P) (Z.to_nat n) rest ;;
    s <- constructor (map OfAnySignature signatures) (OfUint8Array bitmap) ;;
    Ok (s, rest').

End MultiKeySignature.

(** ** Sample values *)

Fixpoint bytes_eqb (a b : list byte) : bool :=
  match a, b with
  | [], [] => true
  | x :: a', y :: b' => Byte.eqb x y && bytes_eqb a' b'
  | _, _ => false
  end.

(** A stand-in for the primitive classes, to run the wrappers on concrete
    inputs: the byte lengths of the two schemes, and a verification routine
    that accepts a signature when its bytes repeat the message. *)
Definition sample_Primitives : Primitives := {|
  Ed25519PublicKey_LENGTH := 32;
  Ed25519Signature_LENGTH := 64;
  Secp256k1PublicKey_LENGTH := 65;
  Secp256k1Signature_LENGTH := 64;
  Ed25519PublicKey_verifySignature :=
    fun _ message sig => bytes_eqb message (Ed25519Signature_bytes sig);
  Secp256k1PublicKey_verifySignature :=
    fun _ message sig => bytes_eqb message (Secp256k1Signature_bytes sig)
|}.

(** Two choices for the members of [SigningSchemeInput]: equal to the
    signature variants, and with [Secp256k1Ecdsa = 2], a value that is not
    the Secp256k1 variant. *)
Definition SigningSchemeInput_as_variants : SigningSchemeInput :=
  {| SigningSchemeInput_Ed25519 := 0; SigningSchemeInput_Secp256k1Ecdsa := 1 |}.

Definition SigningSchemeInput_0_2 : SigningSchemeInput :=
  {| SigningSchemeInput_Ed25519 := 0; SigningSchemeInput_Secp256k1Ecdsa := 2 |}.

Definition sample_ed_key (b : byte) : Ed25519PublicKey :=
  {| Ed25519PublicKey_bytes := repeat b 32 |}.
Definition sample_secp_key (b : byte) : Secp256k1PublicKey :=
  {| Secp256k1PublicKey_bytes := repeat b 65 |}.
Definition sample_ed_sig (b : byte) : Ed25519Signature :=
  {| Ed25519Signature_bytes := repeat b 64 |}.
Definition sample_secp_sig (b : byte) : Secp256k1Signature :=
  {| Secp256k1Signature_bytes := repeat b 64 |}.

(** A 2-of-3 key set over both schemes. *)
Definition sample_keys : list MultiKey.PublicKeyInput :=
  [ MultiKey.OfEd25519 (sample_ed_key x01);
    MultiKey.OfSecp256k1 (sample_secp_key x02);
    MultiKey.OfAnyPublicKey
      (AnyPublicKey.fromPublicKey (AnyPublicKey.OfEd25519 (sample_ed_key x03))) ].

Definition sample_MultiKey : MultiKey.t :=
  {| MultiKey.publicKeys := map MultiKey.normalize sample_keys;
     MultiKey.signaturesRequired := 2 |}.

Definition sample_message : HexInput := repeat x02 64.

Definition sample_AnyPublicKey_ed : AnyPublicKey.t :=
  AnyPublicKey.fromPublicKey (AnyPublicKey.OfEd25519 (sample_ed_key x01)).

Definition sample_AnySignature_ed : AnySignature.t :=
  AnySignature.fromSignature (AnySignature.OfEd25519 (sample_ed_sig x02)).

Definition sample_AnySignature_secp : AnySignature.t :=
  AnySignature.fromSignature (AnySignature.OfSecp256k1 (sample_secp_sig x07)).

(** [new AnySignature(new Ed25519Signature(...), AnySignatureVariant.Secp256k1)] *)
Definition sample_AnySignature_mispaired : AnySignature.t :=
  AnySignature.constructor (AnySignature.OfEd25519 (sample_ed_sig x02))
                           AnySignatureVariant_Secp256k1.

(** What [new MultiKeySignature({ signatures: [secp], bitmap: [0] })] builds. *)
Definition sample_MultiKeySignature_secp : MultiKeySignature.t :=
  {| MultiKeySignature.signatures := [sample_AnySignature_secp];
     MultiKeySignature.bitmap := [x80; x00; x00; x00] |}.

Definition sample_33_signatures : list MultiKeySignature.SignatureInput :=
  repeat (MultiKeySignature.OfEd25519 (sample_ed_sig x01)) 33.

Definition sample_MultiKey_bytes : list byte :=
  Eval vm_compute in
    match MultiKey.serialize sample_MultiKey with
    | Ok bytes => bytes
    | Err _ => []
    end.

(** The encoding of the three sample keys as a sequence, without the
    threshold byte that follows it in a [MultiKey]. *)
Definition sample_keys_bytes : list byte :=
  Eval vm_compute in
    match BCS.serializeVector AnyPublicKey.serialize
                              (MultiKey.publicKeys sample_MultiKey) with
    | Ok bytes => bytes
    | Err _ => []
    end.

Definition sample_ed_key_bytes : list byte := x00 :: repeat x01 32.

Definition sample_ed_sig_bytes : list byte := x00 :: repeat x02 64.

(** * Properties *)

(** ** Properties of bytes *)

Lemma Z_of_byte_range (b : byte) : 0 <= Z_of_byte b <= 255.
Proof.
  unfold Z_of_byte. pose proof (Byte.to_N_bounded b) as H.
  split; [apply N2Z.is_nonneg|].
  change 255 with (Z.of_N 255). apply N2Z.inj_le. exact H.
Qed.

Lemma byte_of_Z_of_byte (b : byte) : byte_of_Z (Z_of_byte b) = b.
Proof.
  unfold byte_of_Z. pose proof (Z_of_byte_range b) as H.
  rewrite Z.mod_small by lia.
  unfold Z_of_byte. rewrite N2Z.id, Byte.of_to_N. reflexivity.
Qed.

Lemma Z_of_byte_of_Z (z : Z) : 0 <= z <= 255 -> Z_of_byte (byte_of_Z z) = z.
Proof.
  intros H. unfold byte_of_Z. rewrite Z.mod_small by lia.
  destruct (Byte.of_N (Z.to_N z)) as [b|] eqn:E.
  - apply Byte.to_of_N in E. unfold Z_of_byte. rewrite E. lia.
  - apply Byte.of_N_None_iff in E. lia.
Qed.

Lemma bitCount_byte (b : byte) : bitCount (Z_of_byte b) = popcount8 (Z_of_byte b).
Proof. destruct b; vm_compute; reflexivity. Qed.

Lemma fold_bitCount_acc (bitmap : Uint8Array) (acc : Z) :
  fold_left (fun a byte => a + bitCount (Z_of_byte byte)) bitmap acc
  = acc + popcount bitmap.
Proof.
  revert acc. induction bitmap as [|b tl IH]; intros acc; simpl.
  - lia.
  - rewrite IH, bitCount_byte. lia.
Qed.

Lemma nSignatures_popcount (bitmap : Uint8Array) : nSignatures bitmap = popcount bitmap.
Proof. unfold nSignatures. rewrite fold_bitCount_acc. lia. Qed.

Lemma popcount8_bound (b : byte) : 0 <= popcount8 (Z_of_byte b) <= 8.
Proof. destruct b; vm_compute; split; discriminate. Qed.

Lemma popcount_bound (bitmap : Uint8Array) :
  0 <= popcount bitmap <= 8 * Z.of_nat (length bitmap).
Proof.
  induction bitmap as [|b tl IH]; [simpl; lia|].
  cbn [popcount length]. pose proof (popcount8_bound b). lia.
Qed.

(** C9. For a byte value [0 <= b <= 255], [bitCount b] is the number of set
    bits of [b]; hence the count the constructor and the deserializer of
    [MultiKeySignature] obtain by summing [bitCount] over the bytes of a
    bitmap is the population count of the bitmap. *)
Theorem bitCount_is_popcount (b : Z) (Hb : 0 <= b <= 255) :
  bitCount b = popcount8 b /\
  forall bitmap : Uint8Array, nSignatures bitmap = popcount bitmap.
Proof.
  split.
  - rewrite <- (Z_of_byte_of_Z b Hb). apply bitCount_byte.
  - apply nSignatures_popcount.
Qed.

Lemma bitCount_is_popcount_witness :
  0 <= 0xA5 <= 255 /\
  (bitCount 0xA5 = popcount8 0xA5 /\
   forall bitmap : Uint8Array, nSignatures bitmap = popcount bitmap).
Proof. split; [lia | apply (bitCount_is_popcount 0xA5); lia]. Defined.

(** ** The codec: decoding inverts encoding *)

Lemma bind_Ok {A B : Type} (r : Result A) (k : A -> Result B) (b : B) :
  bind r k = Ok b -> exists a, r = Ok a /\ k a = Ok b.
Proof. destruct r as [a|e]; simpl; intros H; [eauto | discriminate]. Qed.

Lemma Ok_inj {A : Type} (a b : A) : Ok a = Ok b -> a = b.
Proof. intros H. injection H. auto. Qed.

Ltac bind_inv_as H a Ha :=
  apply bind_Ok in H; destruct H as (a & Ha & H).

Ltac bind_inv H :=
  let a := fresh "x" in
  let Ha := fresh "Hx" in
  apply bind_Ok in H; destruct H as (a & Ha & H).

Lemma uleb128_decode_encode (g : nat) :
  forall (v shift acc : Z) (rest : list byte),
    0 <= v < 128 ^ Z.of_nat (S g) ->
    0 <= shift ->
    BCS.uleb128_decode (BCS.uleb128 (S g) v ++ rest) shift acc
    = if acc + v * 2 ^ shift <=? BCS.MAX_U32_NUMBER
      then Ok (acc + v * 2 ^ shift, rest)
      else Err ValueOutOfRange.
Proof.
  induction g as [|g IH]; intros v shift acc rest Hv Hs.
  - change (128 ^ Z.of_nat 1) with 128 in Hv.
    simpl. destruct (Z.ltb_spec v 128) as [_|]; [|lia].
    simpl. rewrite Z_of_byte_of_Z by lia.
    rewrite Z.mod_small by lia.
    destruct (Z.ltb_spec v 128); [reflexivity | lia].
  - cbn [BCS.uleb128]. destruct (Z.ltb_spec v 128) as [Hlt|Hge].
    + simpl. rewrite Z_of_byte_of_Z by lia.
      rewrite Z.mod_small by lia.
      destruct (Z.ltb_spec v 128); [reflexivity | lia].
    + cbn [app BCS.uleb128_decode].
      pose proof (Z.mod_pos_bound v 128 ltac:(lia)) as Hm.
      rewrite Z_of_byte_of_Z by lia.
      destruct (Z.ltb_spec (v mod 128 + 128) 128) as [|_]; [lia|].
      replace ((v mod 128 + 128) mod 128) with (v mod 128)
        by (rewrite Z.add_mod, Z.mod_same, Z.add_0_r, !Z.mod_mod by lia; reflexivity).
      change (BCS.uleb128_decode
                (BCS.uleb128 (S g) (v / 128) ++ rest) (shift + 7)
                (acc + v mod 128 * 2 ^ shift)
              = if acc + v * 2 ^ shift <=? BCS.MAX_U32_NUMBER
                then Ok (acc + v * 2 ^ shift, rest) else Err ValueOutOfRange).
      assert (Hpow : 2 ^ (shift + 7) = 2 ^ shift * 128)
        by (rewrite Z.pow_add_r by lia; reflexivity).
      assert (Hsplit : acc + v mod 128 * 2 ^ shift + v / 128 * 2 ^ (shift + 7)
                       = acc + v * 2 ^ shift).
      { rewrite Hpow. rewrite (Z.div_mod v 128) at 3 by lia. ring. }
      rewrite IH, Hsplit; [reflexivity | | lia].
      split; [apply Z.div_pos; lia|].
      apply Z.div_lt_upper_bound; [lia|].
      replace (Z.of_nat (S (S g))) with (1 + Z.of_nat (S g)) in Hv by lia.
      rewrite Z.pow_add_r in Hv by lia. exact (proj2 Hv).
Qed.

Lemma serializeU32AsUleb128_Ok (v : Z) (bytes : list byte) :
  BCS.serializeU32AsUleb128 v = Ok bytes ->
  0 <= v <= BCS.MAX_U32_NUMBER /\ bytes = BCS.uleb128 5 v.
Proof.
  unfold BCS.serializeU32AsUleb128.
  destruct (Z.leb_spec 0 v), (Z.leb_spec v BCS.MAX_U32_NUMBER);
    simpl; intros E; inversion E; auto.
Qed.

Lemma serializeU32AsUleb128_in_range (v : Z) :
  0 <= v <= BCS.MAX_U32_NUMBER ->
  BCS.serializeU32AsUleb128 v = Ok (BCS.uleb128 5 v).
Proof.
  intros [H0 H1]. unfold BCS.serializeU32AsUleb128.
  destruct (Z.leb_spec 0 v), (Z.leb_spec v BCS.MAX_U32_NUMBER);
    simpl; try reflexivity; lia.
Qed.

Lemma deserializeUleb128AsU32_uleb128 (v : Z) (rest : list byte) :
  0 <= v <= BCS.MAX_U32_NUMBER ->
  BCS.deserializeUleb128AsU32 (BCS.uleb128 5 v ++ rest) = Ok (v, rest).
Proof.
  intros Hv. unfold BCS.deserializeUleb128AsU32.
  assert (Hmax : BCS.MAX_U32_NUMBER < 128 ^ Z.of_nat 5) by (vm_compute; reflexivity).
  rewrite uleb128_decode_encode by lia.
  change (2 ^ 0) with 1. rewrite Z.mul_1_r, Z.add_0_l.
  destruct (Z.leb_spec v BCS.MAX_U32_NUMBER); [reflexivity | lia].
Qed.

Lemma take_bytes_app (bs rest : list byte) :
  BCS.take_bytes (length bs) (bs ++ rest) = Ok (bs, rest).
Proof.
  induction bs as [|b bs IH]; simpl; [reflexivity|].
  rewrite IH. reflexivity.
Qed.

Lemma take_bytes_length (n : nat) :
  forall input bs rest,
    BCS.take_bytes n input = Ok (bs, rest) -> length bs = n /\ input = bs ++ rest.
Proof.
  induction n as [|n IH]; intros input bs rest H; simpl in H.
  - inversion H; subst. auto.
  - destruct input as [|b input]; [discriminate|].
    destruct (BCS.take_bytes n input) as [[bs' rest']|e] eqn:E; simpl in H;
      [|discriminate].
    inversion H; subst. apply IH in E. destruct E as [E1 E2].
    subst. simpl. auto.
Qed.

Lemma deserializeBytes_serializeBytes (value bytes rest : list byte) :
  BCS.serializeBytes value = Ok bytes ->
  BCS.deserializeBytes (bytes ++ rest) = Ok (value, rest).
Proof.
  unfold BCS.serializeBytes, BCS.deserializeBytes. intros H.
  bind_inv H. apply serializeU32AsUleb128_Ok in Hx. destruct Hx as [Hr ->].
  apply Ok_inj in H. subst bytes. rewrite <- app_assoc.
  rewrite deserializeUleb128AsU32_uleb128 by exact Hr. simpl.
  rewrite Nat2Z.id. apply take_bytes_app.
Qed.

(** A sequence decodes back when each of its elements does. *)
Lemma deserializeElements_serializeElements {A : Type}
      (ser : A -> Result (list byte)) (de : BCS.Deserializer A) (values : list A) :
  (forall v bytes rest, In v values -> ser v = Ok bytes -> de (bytes ++ rest) = Ok (v, rest)) ->
  forall bytes rest,
    BCS.serializeElements ser values = Ok bytes ->
    BCS.deserializeElements de (length values) (bytes ++ rest) = Ok (values, rest).
Proof.
  induction values as [|v tl IH]; intros Hel bytes rest H; simpl in *.
  - inversion H. reflexivity.
  - bind_inv H. bind_inv H. apply Ok_inj in H. subst bytes.
    rewrite <- app_assoc.
    rewrite (Hel v x (x0 ++ rest)) by auto. simpl.
    rewrite (IH (fun v' b r Hin => Hel v' b r (or_intror Hin)) x0 rest Hx0).
    reflexivity.
Qed.

Lemma deserializeVector_serializeVector {A : Type}
      (ser : A -> Result (list byte)) (de : BCS.Deserializer A) (values : list A) :
  (forall v bytes rest, In v values -> ser v = Ok bytes -> de (bytes ++ rest) = Ok (v, rest)) ->
  forall bytes rest,
    BCS.serializeVector ser values = Ok bytes ->
    BCS.deserializeVector de (bytes ++ rest) = Ok (values, rest).
Proof.
  intros Hel bytes rest H. unfold BCS.serializeVector in H.
  bind_inv H. bind_inv H. apply Ok_inj in H. subst bytes.
  apply serializeU32AsUleb128_Ok in Hx. destruct Hx as [Hr ->].
  unfold BCS.deserializeVector. rewrite <- app_assoc.
  rewrite deserializeUleb128AsU32_uleb128 by exact Hr. simpl.
  rewrite Nat2Z.id.
  apply (deserializeElements_serializeElements ser); assumption.
Qed.

(** ** The single-key wrappers *)

Section SingleKey.

Variable P : Primitives.
Variable SSI : SigningSchemeInput.

(** *** The pairing invariant *)

Lemma AnyPublicKey_fromPublicKey_paired (pk : AnyPublicKey.PublicKeyInput) :
  AnyPublicKey.paired (AnyPublicKey.fromPublicKey pk) = true.
Proof. destruct pk; reflexivity. Qed.

Lemma AnyPublicKey_deserialize_paired (input rest : list byte) (k : AnyPublicKey.t) :
  AnyPublicKey.deserialize P input = Ok (k, rest) -> AnyPublicKey.paired k = true.
Proof.
  unfold AnyPublicKey.deserialize. intros H.
  bind_inv H. destruct x as [variantIndex r].
  destruct (variantIndex =? _).
  - bind_inv H. destruct x as [pk r']. apply Ok_inj in H.
    injection H as <- _. reflexivity.
  - destruct (variantIndex =? _); [|discriminate].
    bind_inv H. destruct x as [pk r']. apply Ok_inj in H.
    injection H as <- _. reflexivity.
Qed.

Lemma AnySignature_fromSignature_paired (sig : AnySignature.SignatureInput) :
  AnySignature.paired (AnySignature.fromSignature sig) = true.
Proof. destruct sig; reflexivity. Qed.

Lemma AnySignature_deserialize_paired (input rest : list byte) (s : AnySignature.t) :
  AnySignature.deserialize P input = Ok (s, rest) -> AnySignature.paired s = true.
Proof.
  unfold AnySignature.deserialize. intros H.
  bind_inv H. destruct x as [variantIndex r].
  destruct (variantIndex =? _).
  - bind_inv H. destruct x as [sig r']. apply Ok_inj in H.
    injection H as <- _. reflexivity.
  - destruct (variantIndex =? _); [|discriminate].
    bind_inv H. destruct x as [sig r']. apply Ok_inj in H.
    injection H as <- _. reflexivity.
Qed.

(** C5. The pairing invariant of [AnySignature] is not established by its
    constructor: the constructor is public and stores the variant it is
    given next to a signature of the other scheme, here an Ed25519
    signature under the Secp256k1 variant. *)
Theorem AnySignature_constructor_unpaired (sig : Ed25519Signature) :
  AnySignature.paired
    (AnySignature.constructor (AnySignature.OfEd25519 sig) AnySignatureVariant_Secp256k1)
  = false.
Proof. reflexivity. Qed.

(** *** The tag [serialize] writes *)

Lemma AnySignature_serialize_tag_body (s : AnySignature.t) :
  AnySignature.serialize SSI s
  = (tag <- BCS.serializeU32AsUleb128 (AnySignature.serialize_tag SSI s) ;;
     Ok (tag ++ AnySignature.inner_bytes s)).
Proof.
  unfold AnySignature.serialize, AnySignature.serialize_tag, AnySignature.inner_bytes.
  destruct (AnySignature.signature s); reflexivity.
Qed.

Lemma AnySignature_serialize_ignores_variant
      (sig : AnySignature.SignatureInput) (v v' : AnySignatureVariant) :
  AnySignature.serialize SSI (AnySignature.constructor sig v)
  = AnySignature.serialize SSI (AnySignature.constructor sig v').
Proof. reflexivity. Qed.

(** C3. The tag [AnySignature.serialize] writes is not the stored variant:
    it is chosen from the class of the wrapped signature among the members
    of [SigningSchemeInput], so two values that differ only in the stored
    variant serialize alike, and for every signature one of the two
    variants it can be stored with differs from the tag written. *)
Theorem AnySignature_serialize_tag_not_stored_variant
        (sig : AnySignature.SignatureInput) :
  (forall v v',
      AnySignature.serialize SSI (AnySignature.constructor sig v)
      = AnySignature.serialize SSI (AnySignature.constructor sig v')) /\
  exists v,
    AnySignature.serialize_tag SSI (AnySignature.constructor sig v)
    <> AnySignatureVariant_value v.
Proof.
  split; [intros; reflexivity|].
  destruct (Z.eq_dec (AnySignature.serialize_tag SSI
                        (AnySignature.constructor sig AnySignatureVariant_Ed25519))
                     0) as [E|E].
  - exists AnySignatureVariant_Secp256k1.
    change (AnySignature.serialize_tag SSI
              (AnySignature.constructor sig AnySignatureVariant_Ed25519) <> 1).
    rewrite E. discriminate.
  - exists AnySignatureVariant_Ed25519. exact E.
Qed.

End SingleKey.

Section SingleKeyCodec.

Variable P : Primitives.
Variable SSI : SigningSchemeInput.

Lemma AnyPublicKey_serialize_Ok (k : AnyPublicKey.t) :
  exists bytes, AnyPublicKey.serialize k = Ok bytes.
Proof. destruct k as [[pk|pk] [|]]; eexists; reflexivity. Qed.

(** Decoding an [AnyPublicKey] inverts its encoding. *)
Lemma AnyPublicKey_roundtrip (k : AnyPublicKey.t) (bytes rest : list byte) :
  AnyPublicKey.paired k = true ->
  AnyPublicKey.well_sized P k ->
  AnyPublicKey.serialize k = Ok bytes ->
  AnyPublicKey.deserialize P (bytes ++ rest) = Ok (k, rest).
Proof.
  intros Hp Hw Hser. unfold AnyPublicKey.serialize in Hser.
  bind_inv Hser. bind_inv Hser. apply Ok_inj in Hser. subst bytes.
  apply serializeU32AsUleb128_Ok in Hx. destruct Hx as [Hr ->].
  unfold AnyPublicKey.deserialize.
  rewrite <- app_assoc, deserializeUleb128AsU32_uleb128 by exact Hr.
  destruct k as [[pk|pk] [|]]; try discriminate Hp;
    unfold AnyPublicKey.well_sized in Hw; simpl in Hw, Hx0 |- *;
    apply Ok_inj in Hx0; subst x0.
  - unfold Ed25519PublicKey_deserialize, BCS.deserializeFixedBytes.
    rewrite <- Hw, take_bytes_app. destruct pk. reflexivity.
  - unfold Secp256k1PublicKey_deserialize, BCS.deserializeFixedBytes.
    rewrite <- Hw, take_bytes_app. destruct pk. reflexivity.
Qed.

(** What [AnySignature.deserialize] does after a tag written by
    [serializeU32AsUleb128]. *)
Lemma AnySignature_deserialize_tag (tag : Z) (body : list byte) :
  0 <= tag <= BCS.MAX_U32_NUMBER ->
  AnySignature.deserialize P (BCS.uleb128 5 tag ++ body)
  = if tag =? 0 then
      '(sig, rest') <- Ed25519Signature_deserialize P body ;;
      Ok (AnySignature.constructor (AnySignature.OfEd25519 sig)
                                   AnySignatureVariant_Ed25519, rest')
    else if tag =? 1 then
      '(sig, rest') <- Secp256k1Signature_deserialize P body ;;
      Ok (AnySignature.constructor (AnySignature.OfSecp256k1 sig)
                                   AnySignatureVariant_Secp256k1, rest')
    else Err UnknownVariant.
Proof.
  intros Hr. unfold AnySignature.deserialize.
  rewrite deserializeUleb128AsU32_uleb128 by exact Hr. reflexivity.
Qed.

(** A tag other than that of the Secp256k1 variant never decodes to a
    Secp256k1 signature. *)
Lemma AnySignature_deserialize_foreign_tag
      (tag : Z) (body rest : list byte) (s : AnySignature.t) :
  0 <= tag <= BCS.MAX_U32_NUMBER ->
  tag <> AnySignatureVariant_value AnySignatureVariant_Secp256k1 ->
  AnySignature.deserialize P (BCS.uleb128 5 tag ++ body) = Ok (s, rest) ->
  exists sig, AnySignature.signature s = AnySignature.OfEd25519 sig.
Proof.
  intros Hr Htag H. rewrite AnySignature_deserialize_tag in H by exact Hr.
  destruct (Z.eqb_spec tag 0) as [_|_].
  - bind_inv H. destruct x as [sig r]. apply Ok_inj in H.
    injection H as <- _. eexists. reflexivity.
  - destruct (Z.eqb_spec tag 1) as [E|_]; [|discriminate].
    exfalso. apply Htag. exact E.
Qed.

(** Decoding an [AnySignature] inverts its encoding when the two members of
    [SigningSchemeInput] that [serialize] writes are the variants that
    [deserialize] reads. *)
Lemma AnySignature_roundtrip (s : AnySignature.t) (bytes rest : list byte) :
  SigningSchemeInput_Ed25519 SSI
  = AnySignatureVariant_value AnySignatureVariant_Ed25519 ->
  SigningSchemeInput_Secp256k1Ecdsa SSI
  = AnySignatureVariant_value AnySignatureVariant_Secp256k1 ->
  AnySignature.paired s = true ->
  AnySignature.well_sized P s ->
  AnySignature.serialize SSI s = Ok bytes ->
  AnySignature.deserialize P (bytes ++ rest) = Ok (s, rest).
Proof.
  intros He Hk Hp Hw Hser. rewrite AnySignature_serialize_tag_body in Hser.
  bind_inv Hser. apply Ok_inj in Hser. subst bytes.
  apply serializeU32AsUleb128_Ok in Hx. destruct Hx as [Hr ->].
  rewrite <- app_assoc, AnySignature_deserialize_tag by exact Hr.
  destruct s as [[sig|sig] [|]]; try discriminate Hp;
    unfold AnySignature.well_sized in Hw;
    unfold AnySignature.serialize_tag, AnySignature.inner_bytes;
    simpl in Hw |- *.
  - rewrite He. simpl.
    unfold Ed25519Signature_deserialize, BCS.deserializeFixedBytes.
    rewrite <- Hw, take_bytes_app. destruct sig. reflexivity.
  - rewrite Hk. simpl.
    unfold Secp256k1Signature_deserialize, BCS.deserializeFixedBytes.
    rewrite <- Hw, take_bytes_app. destruct sig. reflexivity.
Qed.

(** C1. The round trip of [AnySignature] breaks on the tag: [serialize]
    writes [SigningSchemeInput.Secp256k1Ecdsa] for a Secp256k1 signature
    and [deserialize] only maps [AnySignatureVariant.Secp256k1] back to
    one, so whenever the two constants differ the canonical bytes of a
    Secp256k1 signature do not decode to it. *)
Theorem AnySignature_roundtrip_breaks
        (sig : Secp256k1Signature) (bytes rest : list byte)
        (Htag : SigningSchemeInput_Secp256k1Ecdsa SSI
                <> AnySignatureVariant_value AnySignatureVariant_Secp256k1)
        (Hser : AnySignature.serialize SSI
                  (AnySignature.fromSignature (AnySignature.OfSecp256k1 sig))
                = Ok bytes) :
  AnySignature.deserialize P (bytes ++ rest)
  <> Ok (AnySignature.fromSignature (AnySignature.OfSecp256k1 sig), rest).
Proof.
  rewrite AnySignature_serialize_tag_body in Hser.
  bind_inv Hser. apply Ok_inj in Hser. subst bytes.
  apply serializeU32AsUleb128_Ok in Hx. destruct Hx as [Hr ->].
  rewrite <- app_assoc. intros H.
  apply AnySignature_deserialize_foreign_tag in H; [|exact Hr|exact Htag].
  destruct H as [sig' H]. discriminate H.
Qed.

(** *** Verification *)

Lemma AnyPublicKey_verifySignature_ignores_variant
      (k : AnyPublicKey.t) (message : HexInput)
      (sig : AnySignature.SignatureInput) (v v' : AnySignatureVariant) :
  AnyPublicKey.verifySignature P k message (AnySignature.constructor sig v)
  = AnyPublicKey.verifySignature P k message (AnySignature.constructor sig v').
Proof. reflexivity. Qed.

(** The dispatch is on the classes of the wrapped key and signature. *)
Lemma AnyPublicKey_verifySignature_by_class
      (k : AnyPublicKey.t) (message : HexInput) (s : AnySignature.t) :
  (AnyPublicKey.verifySignature P k message s = true ->
   AnyPublicKey.same_scheme k s = true /\
   AnyPublicKey.primitive_verifies P k message s) /\
  (AnyPublicKey.same_scheme k s = false ->
   AnyPublicKey.verifySignature P k message s = false).
Proof.
  unfold AnyPublicKey.verifySignature, AnyPublicKey.same_scheme,
    AnyPublicKey.primitive_verifies.
  destruct (AnyPublicKey.publicKey k), (AnySignature.signature s);
    split; intros H; try discriminate; auto.
Qed.

Lemma same_scheme_variants_match (k : AnyPublicKey.t) (s : AnySignature.t) :
  AnyPublicKey.paired k = true ->
  AnySignature.paired s = true ->
  AnyPublicKey.same_scheme k s = AnyPublicKey.variants_match k s.
Proof.
  destruct k as [[pk|pk] [|]], s as [[sig|sig] [|]];
    intros Hk Hs; try discriminate Hk; try discriminate Hs; reflexivity.
Qed.

(** C4, amended. For a key and a signature whose stored variants name the
    classes they wrap, [verifySignature] returns true only if the two
    variants match and the primitive verification succeeds, and returns
    false, without raising, whenever the variants differ. *)
Theorem AnyPublicKey_verifySignature_paired
        (k : AnyPublicKey.t) (message : HexInput) (s : AnySignature.t)
        (Hk : AnyPublicKey.paired k = true)
        (Hs : AnySignature.paired s = true) :
  (AnyPublicKey.verifySignature P k message s = true ->
   AnyPublicKey.variants_match k s = true /\
   AnyPublicKey.primitive_verifies P k message s) /\
  (AnyPublicKey.variants_match k s = false ->
   AnyPublicKey.verifySignature P k message s = false).
Proof.
  rewrite <- (same_scheme_variants_match k s Hk Hs).
  apply AnyPublicKey_verifySignature_by_class.
Qed.

End SingleKeyCodec.

Lemma AnySignature_roundtrip_breaks_witness :
  SigningSchemeInput_Secp256k1Ecdsa SigningSchemeInput_0_2
  <> AnySignatureVariant_value AnySignatureVariant_Secp256k1 /\
  AnySignature.serialize SigningSchemeInput_0_2 sample_AnySignature_secp
  = Ok (x02 :: repeat x07 64) /\
  AnySignature.deserialize sample_Primitives ((x02 :: repeat x07 64) ++ [])
  <> Ok (sample_AnySignature_secp, []).
Proof.
  split; [simpl; lia|]. split; [reflexivity|].
  apply (AnySignature_roundtrip_breaks sample_Primitives SigningSchemeInput_0_2
           (sample_secp_sig x07) (x02 :: repeat x07 64) []).
  - simpl; lia.
  - reflexivity.
Defined.

Lemma AnyPublicKey_verifySignature_paired_witness :
  AnyPublicKey.paired sample_AnyPublicKey_ed = true /\
  AnySignature.paired sample_AnySignature_ed = true /\
  ((AnyPublicKey.verifySignature sample_Primitives sample_AnyPublicKey_ed
      sample_message sample_AnySignature_ed = true ->
    AnyPublicKey.variants_match sample_AnyPublicKey_ed sample_AnySignature_ed = true /\
    AnyPublicKey.primitive_verifies sample_Primitives sample_AnyPublicKey_ed
      sample_message sample_AnySignature_ed) /\
   (AnyPublicKey.variants_match sample_AnyPublicKey_ed sample_AnySignature_ed = false ->
    AnyPublicKey.verifySignature sample_Primitives sample_AnyPublicKey_ed
      sample_message sample_AnySignature_ed = false)).
Proof.
  split; [reflexivity|]. split; [reflexivity|].
  apply (AnyPublicKey_verifySignature_paired sample_Primitives
           sample_AnyPublicKey_ed sample_message sample_AnySignature_ed);
    reflexivity.
Defined.

(** C4, as stated, fails: the key and the signature below store different
    variants, and [verifySignature] accepts, because it looks at the classes
    of the wrapped values and both are Ed25519. *)
Lemma AnyPublicKey_verifySignature_variant_mismatch_accepted :
  AnyPublicKey.variants_match sample_AnyPublicKey_ed sample_AnySignature_mispaired
  = false /\
  AnyPublicKey.verifySignature sample_Primitives sample_AnyPublicKey_ed
    sample_message sample_AnySignature_mispaired = true.
Proof. split; reflexivity. Qed.

(** ** [MultiKey] *)

Lemma map_normalize_OfAnyPublicKey (keys : list AnyPublicKey.t) :
  map MultiKey.normalize (map MultiKey.OfAnyPublicKey keys) = keys.
Proof.
  induction keys as [|k tl IH]; simpl; [reflexivity|]. rewrite IH. reflexivity.
Qed.

Lemma MultiKey_constructor_Ok (publicKeys : list MultiKey.PublicKeyInput)
      (signaturesRequired : Z) (mk : MultiKey.t) :
  MultiKey.constructor publicKeys signaturesRequired = Ok mk ->
  1 <= MultiKey.signaturesRequired mk <= Z.of_nat (length (MultiKey.publicKeys mk)).
Proof.
  unfold MultiKey.constructor.
  destruct (Z.ltb_spec signaturesRequired 1); [discriminate|].
  destruct (Z.ltb_spec (Z.of_nat (length publicKeys)) signaturesRequired);
    [discriminate|].
  intros H1. apply Ok_inj in H1. subst mk. simpl. rewrite length_map. lia.
Qed.

Lemma serializeU8_Ok (v : Z) (bytes : list byte) :
  BCS.serializeU8 v = Ok bytes -> 0 <= v <= 255 /\ bytes = [byte_of_Z v].
Proof.
  unfold BCS.serializeU8, BCS.MAX_U8_NUMBER.
  destruct (Z.leb_spec 0 v), (Z.leb_spec v 255);
    simpl; intros E; inversion E; auto.
Qed.

(** Decoding a [MultiKey] inverts its encoding. *)
Lemma MultiKey_roundtrip (P : Primitives) (mk : MultiKey.t) (bytes rest : list byte) :
  Forall (fun k => AnyPublicKey.paired k = true /\ AnyPublicKey.well_sized P k)
         (MultiKey.publicKeys mk) ->
  1 <= MultiKey.signaturesRequired mk <= Z.of_nat (length (MultiKey.publicKeys mk)) ->
  MultiKey.serialize mk = Ok bytes ->
  MultiKey.deserialize P (bytes ++ rest) = Ok (mk, rest).
Proof.
  intros Hkeys Hthr Hser. unfold MultiKey.serialize in Hser.
  bind_inv Hser. bind_inv Hser. apply Ok_inj in Hser. subst bytes.
  apply serializeU8_Ok in Hx0. destruct Hx0 as [Hr ->].
  unfold MultiKey.deserialize. rewrite <- app_assoc.
  rewrite (deserializeVector_serializeVector AnyPublicKey.serialize
             (AnyPublicKey.deserialize P) (MultiKey.publicKeys mk)) with (1 := fun v b r Hin Hs =>
             AnyPublicKey_roundtrip P v b r
               (proj1 (proj1 (Forall_forall _ _) Hkeys v Hin))
               (proj2 (proj1 (Forall_forall _ _) Hkeys v Hin)) Hs) (2 := Hx).
  simpl. rewrite Z_of_byte_of_Z by exact Hr.
  unfold MultiKey.constructor. rewrite length_map.
  destruct (Z.ltb_spec (MultiKey.signaturesRequired mk) 1); [lia|].
  destruct (Z.ltb_spec (Z.of_nat (length (MultiKey.publicKeys mk)))
                       (MultiKey.signaturesRequired mk)); [lia|].
  simpl. rewrite map_normalize_OfAnyPublicKey. destruct mk. reflexivity.
Qed.

(** The range check of [MultiKey.createBitmap] looks at the position of an
    entry in [bits], not at the entry: a single position of any value is
    accepted by a key set that has a key. *)
Lemma MultiKey_createBitmap_single (mk : MultiKey.t) (bit : Z) :
  (1 <= length (MultiKey.publicKeys mk))%nat ->
  MultiKey.createBitmap mk [bit] = Ok (set_bit [x00; x00; x00; x00] bit).
Proof.
  intros Hn. unfold MultiKey.createBitmap. cbn [MultiKey.createBitmap_loop].
  destruct (Z.gtb_spec (0 + 1) (Z.of_nat (length (MultiKey.publicKeys mk))));
    [lia | reflexivity].
Qed.

(** The out-of-range error of [MultiKey.createBitmap] depends on how many
    positions are supplied, never on their values. *)
Lemma MultiKey_createBitmap_loop_range_error (n : Z) (bits : list Z) :
  forall (idx : Z) (dupCheckSet : list Z) (bitmap : Uint8Array),
    MultiKey.createBitmap_loop n bits idx dupCheckSet bitmap = Err IndexOutOfRange ->
    n < idx + Z.of_nat (length bits).
Proof.
  induction bits as [|bit rest IH]; intros idx dup bitmap H; simpl in H.
  - discriminate H.
  - destruct (Z.gtb_spec (idx + 1) n) as [Hgt|Hle].
    + cbn [length]. lia.
    + destruct (set_has dup bit); [discriminate H|].
      apply IH in H. cbn [length]. lia.
Qed.

Lemma MultiKey_createBitmap_range_error (mk : MultiKey.t) (bits : list Z) :
  MultiKey.createBitmap mk bits = Err IndexOutOfRange ->
  (length (MultiKey.publicKeys mk) < length bits)%nat.
Proof.
  unfold MultiKey.createBitmap. intros H.
  apply MultiKey_createBitmap_loop_range_error in H. lia.
Qed.

Lemma set_has_In (dupCheckSet : list Z) (bit : Z) :
  set_has dupCheckSet bit = true <-> In bit dupCheckSet.
Proof.
  unfold set_has. rewrite existsb_exists. split.
  - intros (x & Hin & E). apply Z.eqb_eq in E. subst x. exact Hin.
  - intros Hin. exists bit. split; [exact Hin | apply Z.eqb_refl].
Qed.

Lemma MultiKey_createBitmap_loop_Ok (n : Z) (bits : list Z) :
  forall (idx : Z) (dupCheckSet : list Z) (bitmap : Uint8Array),
    (exists result,
        MultiKey.createBitmap_loop n bits idx dupCheckSet bitmap = Ok result)
    <-> (bits = [] \/ idx + Z.of_nat (length bits) <= n) /\
        NoDup bits /\
        (forall bit, In bit bits -> ~ In bit dupCheckSet).
Proof.
  induction bits as [|bit rest IH]; intros idx dup bitmap.
  - simpl. split.
    + intros _. split; [left; reflexivity|]. split; [constructor|]. intros b [].
    + intros _. eexists. reflexivity.
  - cbn [MultiKey.createBitmap_loop].
    destruct (Z.gtb_spec (idx + 1) n) as [Hgt|Hle].
    { split.
      - intros [r Hr]. discriminate Hr.
      - intros ([E|Hlen] & _); [discriminate E|]. cbn [length] in Hlen. lia. }
    destruct (set_has dup bit) eqn:Ehas.
    { apply set_has_In in Ehas. split.
      - intros [r Hr]. discriminate Hr.
      - intros (_ & _ & Hfresh). exfalso. apply (Hfresh bit); [left; reflexivity | exact Ehas]. }
    assert (Hnot : ~ In bit dup).
    { intros Hin. apply set_has_In in Hin. congruence. }
    rewrite IH. cbn [length]. split.
    + intros (Hlen & Hnd & Hfresh). split; [|split].
      * right. destruct Hlen as [->|Hlen]; simpl; lia.
      * constructor; [|exact Hnd].
        intros Hin. apply (Hfresh bit Hin). left. reflexivity.
      * intros b [<-|Hin]; [exact Hnot|].
        intros Hd. apply (Hfresh b Hin). right. exact Hd.
    + intros (Hlen & Hnd & Hfresh). inversion Hnd as [|? ? Hnotin Hnd']; subst.
      split; [|split].
      * destruct Hlen as [E|Hlen]; [discriminate E|]. right. lia.
      * exact Hnd'.
      * intros b Hin [<-|Hd]; [exact (Hnotin Hin)|].
        apply (Hfresh b); [right; exact Hin | exact Hd].
Qed.

(** What [MultiKey.createBitmap] accepts: no more positions than keys, and
    no position twice.  The values of the positions are not bounded. *)
Lemma MultiKey_createBitmap_Ok_iff (mk : MultiKey.t) (bits : list Z) :
  (exists bitmap, MultiKey.createBitmap mk bits = Ok bitmap)
  <-> (length bits <= length (MultiKey.publicKeys mk))%nat /\ NoDup bits.
Proof.
  unfold MultiKey.createBitmap. rewrite MultiKey_createBitmap_loop_Ok. split.
  - intros ([->|Hlen] & Hnd & _); (split; [simpl; lia | exact Hnd]).
  - intros (Hlen & Hnd). split; [right; lia|]. split; [exact Hnd|].
    intros b _ [].
Qed.

Lemma MultiKeySignature_createBitmap_loop_Ok (bits : list Z) :
  forall (dupCheckSet : list Z) (bitmap : Uint8Array),
    (exists result,
        MultiKeySignature.createBitmap_loop bits dupCheckSet bitmap = Ok result)
    <-> (forall bit, In bit bits -> bit < 32) /\
        NoDup bits /\
        (forall bit, In bit bits -> ~ In bit dupCheckSet).
Proof.
  induction bits as [|bit rest IH]; intros dup bitmap.
  - simpl. split.
    + intros _. split; [intros b []|]. split; [constructor|]. intros b [].
    + intros _. eexists. reflexivity.
  - cbn [MultiKeySignature.createBitmap_loop].
    change MultiKeySignature.MAX_SIGNATURES_SUPPORTED with 32.
    destruct (Z.geb_spec bit 32) as [Hge|Hlt].
    { split.
      - intros [r Hr]. discriminate Hr.
      - intros (Hall & _). specialize (Hall bit (or_introl eq_refl)). lia. }
    destruct (set_has dup bit) eqn:Ehas.
    { apply set_has_In in Ehas. split.
      - intros [r Hr]. discriminate Hr.
      - intros (_ & _ & Hfresh). exfalso. apply (Hfresh bit); [left; reflexivity | exact Ehas]. }
    assert (Hnot : ~ In bit dup).
    { intros Hin. apply set_has_In in Hin. congruence. }
    rewrite IH. split.
    + intros (Hall & Hnd & Hfresh). split; [|split].
      * intros b [<-|Hin]; [exact Hlt | exact (Hall b Hin)].
      * constructor; [|exact Hnd].
        intros Hin. apply (Hfresh bit Hin). left. reflexivity.
      * intros b [<-|Hin]; [exact Hnot|].
        intros Hd. apply (Hfresh b Hin). right. exact Hd.
    + intros (Hall & Hnd & Hfresh). inversion Hnd as [|? ? Hnotin Hnd']; subst.
      split; [|split].
      * intros b Hin. apply Hall. right. exact Hin.
      * exact Hnd'.
      * intros b Hin [<-|Hd]; [exact (Hnotin Hin)|].
        apply (Hfresh b); [right; exact Hin | exact Hd].
Qed.

(** What [MultiKeySignature.createBitmap] accepts: positions below 32, no
    position twice. *)
Lemma MultiKeySignature_createBitmap_Ok_iff (bits : list Z) :
  (exists bitmap, MultiKeySignature.createBitmap bits = Ok bitmap)
  <-> (forall bit, In bit bits -> bit < 32) /\ NoDup bits.
Proof.
  unfold MultiKeySignature.createBitmap.
  rewrite MultiKeySignature_createBitmap_loop_Ok. split.
  - intros (Hall & Hnd & _). split; assumption.
  - intros (Hall & Hnd). split; [exact Hall|]. split; [exact Hnd|].
    intros b _ [].
Qed.

(** ** Setting a bit *)

Lemma byte_set_bit (b : byte) (p q : Z) :
  0 <= p < 8 -> 0 <= q < 8 ->
  Z.testbit (Z_of_byte (byte_of_Z (JS.or (Z_of_byte b) (JS.shr firstBitInByte p))))
            (7 - q)
  = (p =? q) || Z.testbit (Z_of_byte b) (7 - q).
Proof.
  intros Hp Hq.
  assert (Hall : forallb (fun x => forallb (fun y =>
            Bool.eqb
              (Z.testbit (Z_of_byte (byte_of_Z
                 (JS.or (Z_of_byte b) (JS.shr firstBitInByte (Z.of_nat x)))))
                 (7 - Z.of_nat y))
              ((Z.of_nat x =? Z.of_nat y) || Z.testbit (Z_of_byte b) (7 - Z.of_nat y)))
            (seq 0 8)) (seq 0 8) = true)
    by (destruct b; vm_compute; reflexivity).
  rewrite forallb_forall in Hall.
  specialize (Hall (Z.to_nat p)). rewrite in_seq in Hall.
  specialize (Hall ltac:(lia)). rewrite forallb_forall in Hall.
  specialize (Hall (Z.to_nat q)). rewrite in_seq in Hall.
  specialize (Hall ltac:(lia)). rewrite !Z2Nat.id in Hall by lia.
  apply Bool.eqb_prop in Hall. exact Hall.
Qed.

Lemma set_nth_length (arr : Uint8Array) (n : nat) (b : byte) :
  length (set_nth arr n b) = length arr.
Proof.
  revert n. induction arr as [|a tl IH]; intros [|n]; simpl; auto.
Qed.

Lemma nth_error_set_nth_same (arr : Uint8Array) (n : nat) (b : byte) :
  (n < length arr)%nat -> nth_error (set_nth arr n b) n = Some b.
Proof.
  revert n. induction arr as [|a tl IH]; intros [|n] H; simpl in *;
    try lia; [reflexivity|]. apply IH. lia.
Qed.

Lemma nth_error_set_nth_other (arr : Uint8Array) (n m : nat) (b : byte) :
  n <> m -> nth_error (set_nth arr n b) m = nth_error arr m.
Proof.
  revert n m. induction arr as [|a tl IH]; intros [|n] [|m] H; simpl;
    try reflexivity; try congruence. apply IH. congruence.
Qed.

Lemma set_nth_out_of_range (arr : Uint8Array) (n : nat) (b : byte) :
  (length arr <= n)%nat -> set_nth arr n b = arr.
Proof.
  revert n. induction arr as [|a tl IH]; intros [|n] H; simpl in *;
    try reflexivity; try lia. f_equal. apply IH. lia.
Qed.

Lemma set_bit_length (bitmap : Uint8Array) (bit : Z) :
  length (set_bit bitmap bit) = length bitmap.
Proof.
  unfold set_bit, u8_set. destruct (JS.floor_div bit 8 <? 0); [reflexivity|].
  apply set_nth_length.
Qed.

(** A position outside the bitmap leaves it as it is. *)
Lemma set_bit_outside (bitmap : Uint8Array) (bit : Z) :
  bit < 0 \/ 8 * Z.of_nat (length bitmap) <= bit ->
  set_bit bitmap bit = bitmap.
Proof.
  intros H. unfold set_bit, u8_set, JS.floor_div.
  destruct (Z.ltb_spec (bit / 8) 0) as [|Hge]; [reflexivity|].
  apply set_nth_out_of_range.
  destruct H as [H|H].
  - exfalso. assert (bit / 8 < 0) by (apply Z.div_lt_upper_bound; lia). lia.
  - assert (Z.of_nat (length bitmap) <= bit / 8)
      by (apply Z.div_le_lower_bound; lia).
    lia.
Qed.

(** A position inside the bitmap sets its bit and no other. *)
Lemma set_bit_inside (bitmap : Uint8Array) (i j : Z) :
  0 <= i < 8 * Z.of_nat (length bitmap) ->
  0 <= j ->
  bitmap_bit (set_bit bitmap i) j = (i =? j) || bitmap_bit bitmap j.
Proof.
  intros Hi Hj. unfold bitmap_bit, set_bit, u8_set, u8_get, JS.floor_div, JS.rem.
  assert (Hi8 : 0 <= i / 8 < Z.of_nat (length bitmap)).
  { split; [apply Z.div_pos; lia | apply Z.div_lt_upper_bound; lia]. }
  assert (Hj8 : 0 <= j / 8) by (apply Z.div_pos; lia).
  destruct (Z.ltb_spec (i / 8) 0) as [|_]; [lia|].
  destruct (Z.ltb_spec (j / 8) 0) as [|_]; [lia|].
  rewrite Z.rem_mod_nonneg by lia.
  pose proof (Z.mod_pos_bound i 8 ltac:(lia)) as Him.
  pose proof (Z.mod_pos_bound j 8 ltac:(lia)) as Hjm.
  destruct (nth_error bitmap (Z.to_nat (i / 8))) as [b|] eqn:Eb.
  2:{ apply nth_error_None in Eb. lia. }
  destruct (Z.eq_dec (i / 8) (j / 8)) as [E|E].
  - rewrite <- E. rewrite nth_error_set_nth_same by lia. rewrite Eb.
    rewrite byte_set_bit by lia.
    f_equal. destruct (Z.eqb_spec i j) as [->|Hne].
    + apply Z.eqb_refl.
    + apply Z.eqb_neq. intros Em. apply Hne.
      rewrite (Z.div_mod i 8), (Z.div_mod j 8) by lia. rewrite E, Em. reflexivity.
  - rewrite nth_error_set_nth_other by lia.
    destruct (Z.eqb_spec i j) as [->|_]; [contradiction|]. reflexivity.
Qed.

Lemma set_bit_bitmap_bit_any (bitmap : Uint8Array) (i j : Z) :
  0 <= j < 8 * Z.of_nat (length bitmap) ->
  bitmap_bit (set_bit bitmap i) j = (i =? j) || bitmap_bit bitmap j.
Proof.
  intros Hj.
  destruct (Z_lt_le_dec i 0) as [Hneg|Hpos];
    [|destruct (Z_lt_le_dec i (8 * Z.of_nat (length bitmap))) as [Hin|Hout]].
  - rewrite set_bit_outside by lia.
    destruct (Z.eqb_spec i j); [lia | reflexivity].
  - apply set_bit_inside; lia.
  - rewrite set_bit_outside by lia.
    destruct (Z.eqb_spec i j); [lia | reflexivity].
Qed.

Lemma bitmap_bit_zero (j : Z) : bitmap_bit [x00; x00; x00; x00] j = false.
Proof.
  unfold bitmap_bit, u8_get.
  destruct (j / 8 <? 0); [apply Z.testbit_0_l|].
  destruct (Z.to_nat (j / 8)) as [|[|[|[|n]]]]; simpl; try apply Z.testbit_0_l.
  destruct n; apply Z.testbit_0_l.
Qed.

Lemma existsb_eqb_In (j : Z) (bits : list Z) :
  existsb (Z.eqb j) bits = true <-> In j bits.
Proof. exact (set_has_In bits j). Qed.

Lemma MultiKeySignature_createBitmap_loop_bits (bits : list Z) :
  forall (dupCheckSet : list Z) (bitmap result : Uint8Array) (j : Z),
    MultiKeySignature.createBitmap_loop bits dupCheckSet bitmap = Ok result ->
    0 <= j < 8 * Z.of_nat (length bitmap) ->
    length result = length bitmap /\
    bitmap_bit result j = existsb (Z.eqb j) bits || bitmap_bit bitmap j.
Proof.
  induction bits as [|bit rest IH]; intros dup bitmap result j H Hj.
  - apply Ok_inj in H. subst result. auto.
  - cbn [MultiKeySignature.createBitmap_loop] in H.
    destruct (bit >=? MultiKeySignature.MAX_SIGNATURES_SUPPORTED); [discriminate H|].
    destruct (set_has dup bit); [discriminate H|].
    apply (IH _ _ _ j) in H; [|rewrite set_bit_length; exact Hj].
    destruct H as [Hlen Hbit]. rewrite set_bit_length in Hlen.
    split; [exact Hlen|].
    rewrite Hbit, set_bit_bitmap_bit_any by exact Hj. cbn [existsb].
    rewrite (Z.eqb_sym j bit).
    destruct (bit =? j), (existsb (Z.eqb j) rest); reflexivity.
Qed.

(** The bitmap [MultiKeySignature.createBitmap] returns has four bytes and
    exactly the supplied positions set. *)
Lemma MultiKeySignature_createBitmap_bits (bits : list Z) (bitmap : Uint8Array) (j : Z) :
  MultiKeySignature.createBitmap bits = Ok bitmap ->
  0 <= j < 32 ->
  length bitmap = 4%nat /\ (bitmap_bit bitmap j = true <-> In j bits).
Proof.
  unfold MultiKeySignature.createBitmap. intros H Hj.
  apply (MultiKeySignature_createBitmap_loop_bits _ _ _ _ j) in H;
    [|simpl; lia].
  destruct H as [Hlen Hbit]. split; [exact Hlen|].
  rewrite Hbit, bitmap_bit_zero, orb_false_r. apply existsb_eqb_In.
Qed.

Lemma MultiKey_createBitmap_loop_bits (n : Z) (bits : list Z) :
  forall (idx : Z) (dupCheckSet : list Z) (bitmap result : Uint8Array) (j : Z),
    MultiKey.createBitmap_loop n bits idx dupCheckSet bitmap = Ok result ->
    0 <= j < 8 * Z.of_nat (length bitmap) ->
    length result = length bitmap /\
    bitmap_bit result j = existsb (Z.eqb j) bits || bitmap_bit bitmap j.
Proof.
  induction bits as [|bit rest IH]; intros idx dup bitmap result j H Hj.
  - apply Ok_inj in H. subst result. auto.
  - cbn [MultiKey.createBitmap_loop] in H.
    destruct (idx + 1 >? n); [discriminate H|].
    destruct (set_has dup bit); [discriminate H|].
    apply (IH _ _ _ _ j) in H; [|rewrite set_bit_length; exact Hj].
    destruct H as [Hlen Hbit]. rewrite set_bit_length in Hlen.
    split; [exact Hlen|].
    rewrite Hbit, set_bit_bitmap_bit_any by exact Hj. cbn [existsb].
    rewrite (Z.eqb_sym j bit).
    destruct (bit =? j), (existsb (Z.eqb j) rest); reflexivity.
Qed.

(** When [MultiKey.createBitmap] succeeds, the bits set are the supplied
    positions that fall within the 32 slots. *)
Lemma MultiKey_createBitmap_bits (mk : MultiKey.t) (bits : list Z)
      (bitmap : Uint8Array) (j : Z) :
  MultiKey.createBitmap mk bits = Ok bitmap ->
  0 <= j < 32 ->
  length bitmap = 4%nat /\ (bitmap_bit bitmap j = true <-> In j bits).
Proof.
  unfold MultiKey.createBitmap. intros H Hj.
  apply (MultiKey_createBitmap_loop_bits _ _ _ _ _ _ j) in H; [|simpl; lia].
  destruct H as [Hlen Hbit]. split; [exact Hlen|].
  rewrite Hbit, bitmap_bit_zero, orb_false_r. apply existsb_eqb_In.
Qed.

(** The sibling [MultiKeySignature.createBitmap] tests the position itself:
    a position of 32 or more is refused wherever it stands. *)
Lemma MultiKeySignature_createBitmap_loop_rejects (bits : list Z) (bit : Z) :
  In bit bits -> bit >= MultiKeySignature.MAX_SIGNATURES_SUPPORTED ->
  forall (dupCheckSet : list Z) (bitmap : Uint8Array),
    exists e, MultiKeySignature.createBitmap_loop bits dupCheckSet bitmap = Err e.
Proof.
  intros Hin Hbig.
  induction bits as [|b rest IH]; intros dup bitmap; [contradiction|].
  cbn [MultiKeySignature.createBitmap_loop].
  destruct (Z.geb_spec b MultiKeySignature.MAX_SIGNATURES_SUPPORTED) as [Hb|Hb];
    [eexists; reflexivity|].
  destruct (set_has dup b); [eexists; reflexivity|].
  destruct Hin as [->|Hin]; [lia|]. apply IH. exact Hin.
Qed.

Lemma MultiKeySignature_createBitmap_rejects (bits : list Z) (bit : Z) :
  In bit bits -> bit >= 32 ->
  exists e, MultiKeySignature.createBitmap bits = Err e.
Proof.
  intros Hin Hbig. unfold MultiKeySignature.createBitmap.
  apply (MultiKeySignature_createBitmap_loop_rejects bits bit Hin Hbig).
Qed.

(** C2. With three keys, position 3 is past the last key, and
    [MultiKey.createBitmap] accepts it: it returns the bitmap with bit 3 set
    where an index-out-of-range error is due. *)
Theorem MultiKey_createBitmap_accepts_3_of_3 (mk : MultiKey.t)
        (Hn : length (MultiKey.publicKeys mk) = 3%nat) :
  MultiKey.createBitmap mk [3] = Ok [x10; x00; x00; x00].
Proof. rewrite MultiKey_createBitmap_single by lia. reflexivity. Qed.

Lemma MultiKey_createBitmap_accepts_3_of_3_witness :
  length (MultiKey.publicKeys sample_MultiKey) = 3%nat /\
  MultiKey.createBitmap sample_MultiKey [3] = Ok [x10; x00; x00; x00].
Proof.
  split; [reflexivity|].
  apply (MultiKey_createBitmap_accepts_3_of_3 sample_MultiKey). reflexivity.
Defined.

(** One position sets one bit: position [i] is bit [i mod 8], counted from
    the most significant one, of byte [i / 8]. *)
Lemma set_bit_bitmap_bit (i j : Z) :
  0 <= i < 32 -> 0 <= j < 32 ->
  bitmap_bit (set_bit [x00; x00; x00; x00] i) j = (i =? j).
Proof.
  intros _ Hj. rewrite set_bit_bitmap_bit_any by (simpl; lia).
  rewrite bitmap_bit_zero. apply orb_false_r.
Qed.

(** ** [MultiKeySignature] *)

Lemma map_normalize_OfAnySignature (sigs : list AnySignature.t) :
  map MultiKeySignature.normalize (map MultiKeySignature.OfAnySignature sigs) = sigs.
Proof.
  induction sigs as [|s tl IH]; simpl; [reflexivity|]. rewrite IH. reflexivity.
Qed.

(** The constructor, check by check. *)
Lemma MultiKeySignature_constructor_cases
      (sigs : list MultiKeySignature.SignatureInput)
      (input : MultiKeySignature.BitmapInput) (bm : Uint8Array) :
  Z.of_nat (length sigs) <= MultiKeySignature.MAX_SIGNATURES_SUPPORTED ->
  MultiKeySignature.constructor_bitmap input = Ok bm ->
  MultiKeySignature.constructor sigs input
  = if popcount bm =? Z.of_nat (length sigs)
    then Ok {| MultiKeySignature.signatures := map MultiKeySignature.normalize sigs;
               MultiKeySignature.bitmap := bm |}
    else Err SignatureCountMismatch.
Proof.
  intros Hlen Hbm. unfold MultiKeySignature.constructor.
  destruct (Z.gtb_spec (Z.of_nat (length sigs))
                       MultiKeySignature.MAX_SIGNATURES_SUPPORTED); [lia|].
  rewrite Hbm. simpl. rewrite nSignatures_popcount, length_map.
  destruct (popcount bm =? Z.of_nat (length sigs)); reflexivity.
Qed.

(** What every constructed [MultiKeySignature] satisfies. *)
Lemma MultiKeySignature_constructor_Ok
      (sigs : list MultiKeySignature.SignatureInput)
      (input : MultiKeySignature.BitmapInput) (s : MultiKeySignature.t) :
  MultiKeySignature.constructor sigs input = Ok s ->
  Z.of_nat (length sigs) <= MultiKeySignature.MAX_SIGNATURES_SUPPORTED /\
  MultiKeySignature.constructor_bitmap input = Ok (MultiKeySignature.bitmap s) /\
  MultiKeySignature.signatures s = map MultiKeySignature.normalize sigs /\
  popcount (MultiKeySignature.bitmap s)
  = Z.of_nat (length (MultiKeySignature.signatures s)).
Proof.
  unfold MultiKeySignature.constructor.
  destruct (Z.gtb_spec (Z.of_nat (length sigs))
                       MultiKeySignature.MAX_SIGNATURES_SUPPORTED); [discriminate|].
  destruct (MultiKeySignature.constructor_bitmap input) as [bm|e]; [|discriminate].
  simpl. rewrite nSignatures_popcount.
  destruct (Z.eqb_spec (popcount bm)
                       (Z.of_nat (length (map MultiKeySignature.normalize sigs))));
    [|discriminate].
  simpl. intros E. apply Ok_inj in E. subst s. simpl. auto.
Qed.

(** C6, amended. For a list of at most 32 signatures and a bitmap that passes
    its own checks (four raw bytes, or positions that build a bitmap), the
    constructor fails with the count-mismatch error exactly when the
    population count of the bitmap differs from the number of signatures;
    and every constructed value has as many signatures as its bitmap has
    bits set. *)
Theorem MultiKeySignature_count_crosscheck
        (sigs : list MultiKeySignature.SignatureInput)
        (input : MultiKeySignature.BitmapInput) (bm : Uint8Array)
        (Hlen : Z.of_nat (length sigs) <= MultiKeySignature.MAX_SIGNATURES_SUPPORTED)
        (Hbm : MultiKeySignature.constructor_bitmap input = Ok bm) :
  (MultiKeySignature.constructor sigs input = Err SignatureCountMismatch
   <-> popcount bm <> Z.of_nat (length sigs)) /\
  (forall s, MultiKeySignature.constructor sigs input = Ok s ->
             popcount (MultiKeySignature.bitmap s)
             = Z.of_nat (length (MultiKeySignature.signatures s))).
Proof.
  split.
  - rewrite (MultiKeySignature_constructor_cases sigs input bm Hlen Hbm).
    destruct (Z.eqb_spec (popcount bm) (Z.of_nat (length sigs))) as [E|E].
    + split; [discriminate | intros H; contradiction].
    + split; [intros _; exact E | reflexivity].
  - intros s Hs. apply MultiKeySignature_constructor_Ok in Hs. tauto.
Qed.

Lemma MultiKeySignature_count_crosscheck_witness :
  Z.of_nat (length [MultiKeySignature.OfEd25519 (sample_ed_sig x01);
                    MultiKeySignature.OfSecp256k1 (sample_secp_sig x02)])
  <= MultiKeySignature.MAX_SIGNATURES_SUPPORTED /\
  MultiKeySignature.constructor_bitmap (MultiKeySignature.OfBits [0; 1; 2])
  = Ok [xe0; x00; x00; x00] /\
  MultiKeySignature.constructor
    [MultiKeySignature.OfEd25519 (sample_ed_sig x01);
     MultiKeySignature.OfSecp256k1 (sample_secp_sig x02)]
    (MultiKeySignature.OfBits [0; 1; 2])
  = Err SignatureCountMismatch.
Proof.
  split; [vm_compute; discriminate|]. split; [reflexivity|].
  apply (MultiKeySignature_count_crosscheck
           [MultiKeySignature.OfEd25519 (sample_ed_sig x01);
            MultiKeySignature.OfSecp256k1 (sample_secp_sig x02)]
           (MultiKeySignature.OfBits [0; 1; 2]) [xe0; x00; x00; x00]).
  - vm_compute; discriminate.
  - reflexivity.
  - vm_compute; discriminate.
Defined.

(** C6, as stated, fails on 33 signatures: the population count of a
    four-byte bitmap differs from 33, and the constructor fails with the
    too-many-signatures error, not with the count mismatch. *)
Lemma MultiKeySignature_33_signatures_not_mismatch :
  popcount [xff; xff; xff; xff] <> Z.of_nat (length sample_33_signatures) /\
  MultiKeySignature.constructor sample_33_signatures
    (MultiKeySignature.OfUint8Array [xff; xff; xff; xff])
  = Err TooManySignatures /\
  MultiKeySignature.constructor sample_33_signatures
    (MultiKeySignature.OfUint8Array [xff; xff; xff; xff])
  <> Err SignatureCountMismatch.
Proof. split; [vm_compute; discriminate|]. split; [reflexivity | discriminate]. Qed.

(** C10. No signature at all is accepted: the empty signature list builds a
    [MultiKeySignature] with the all-zero bitmap, given raw or as the empty
    position list.  With a raw bitmap the constructor checks the maximum of
    32 signatures, the length of 4 bytes and the population count, and
    nothing else. *)
Theorem MultiKeySignature_empty_constructs :
  MultiKeySignature.constructor [] (MultiKeySignature.OfUint8Array [x00; x00; x00; x00])
  = Ok {| MultiKeySignature.signatures := [];
          MultiKeySignature.bitmap := [x00; x00; x00; x00] |} /\
  MultiKeySignature.constructor [] (MultiKeySignature.OfBits [])
  = Ok {| MultiKeySignature.signatures := [];
          MultiKeySignature.bitmap := [x00; x00; x00; x00] |} /\
  (forall (sigs : list MultiKeySignature.SignatureInput) (arr : Uint8Array),
     (exists s, MultiKeySignature.constructor sigs (MultiKeySignature.OfUint8Array arr) = Ok s)
     <-> (Z.of_nat (length sigs) <= 32 /\
          length arr = 4%nat /\
          popcount arr = Z.of_nat (length sigs))) /\
  (forall (sigs : list MultiKeySignature.SignatureInput) (bits : list Z),
     (exists s, MultiKeySignature.constructor sigs (MultiKeySignature.OfBits bits) = Ok s)
     <-> (Z.of_nat (length sigs) <= 32 /\
          exists bitmap, MultiKeySignature.createBitmap bits = Ok bitmap /\
                         popcount bitmap = Z.of_nat (length sigs))).
Proof.
  split; [reflexivity|]. split; [reflexivity|]. split; cycle 1.
  { intros sigs bits. split.
    - intros [s Hs]. apply MultiKeySignature_constructor_Ok in Hs.
      destruct Hs as (Hlen & Hbm & Hsigs & Hpop).
      rewrite Hsigs, length_map in Hpop.
      split; [exact Hlen|]. eexists. split; [exact Hbm | exact Hpop].
    - intros (Hlen & bitmap & Hbm & Hpop).
      rewrite (MultiKeySignature_constructor_cases
                 sigs (MultiKeySignature.OfBits bits) bitmap Hlen Hbm).
      rewrite Hpop, Z.eqb_refl. eexists. reflexivity. }
  intros sigs arr. split.
  - intros [s Hs]. apply MultiKeySignature_constructor_Ok in Hs.
    destruct Hs as (Hlen & Hbm & Hsigs & Hpop).
    simpl in Hbm. unfold MultiKeySignature.BITMAP_LEN in Hbm.
    destruct (Z.eqb_spec (Z.of_nat (length arr)) 4) as [E|E]; [|discriminate].
    simpl in Hbm. apply Ok_inj in Hbm.
    rewrite <- Hbm in Hpop. rewrite Hsigs, length_map in Hpop.
    change MultiKeySignature.MAX_SIGNATURES_SUPPORTED with 32 in Hlen.
    repeat split; [exact Hlen | lia | exact Hpop].
  - intros (Hlen & Harr & Hpop).
    rewrite (MultiKeySignature_constructor_cases sigs _ arr).
    + rewrite Hpop, Z.eqb_refl. eexists. reflexivity.
    + exact Hlen.
    + simpl. rewrite Harr. reflexivity.
Qed.

(** *** Wire format *)

Section MultiKeySignatureCodec.

Variable P : Primitives.
Variable SSI : SigningSchemeInput.

(** The bytes written: the length of the bitmap, the bitmap, then the
    signatures one after the other, without their count. *)
Lemma MultiKeySignature_serialize_layout (s : MultiKeySignature.t) (bytes : list byte) :
  MultiKeySignature.serialize SSI s = Ok bytes ->
  exists sigs,
    BCS.serializeElements (AnySignature.serialize SSI) (MultiKeySignature.signatures s)
    = Ok sigs /\
    0 <= Z.of_nat (length (MultiKeySignature.bitmap s)) <= BCS.MAX_U32_NUMBER /\
    bytes = BCS.uleb128 5 (Z.of_nat (length (MultiKeySignature.bitmap s)))
            ++ MultiKeySignature.bitmap s ++ sigs.
Proof.
  unfold MultiKeySignature.serialize, BCS.serializeBytes. intros H.
  bind_inv H. bind_inv Hx. apply Ok_inj in Hx. subst x.
  bind_inv H. apply Ok_inj in H. subst bytes.
  apply serializeU32AsUleb128_Ok in Hx0. destruct Hx0 as [Hr ->].
  exists x. split; [exact Hx|]. split; [exact Hr|].
  rewrite <- app_assoc. reflexivity.
Qed.

(** After the bitmap, [deserialize] reads as many signatures as the bitmap
    has bits set, and then constructs. *)
Lemma MultiKeySignature_deserialize_bitmap (bitmap rest : list byte) :
  0 <= Z.of_nat (length bitmap) <= BCS.MAX_U32_NUMBER ->
  MultiKeySignature.deserialize P
    (BCS.uleb128 5 (Z.of_nat (length bitmap)) ++ bitmap ++ rest)
  = ('(signatures, rest') <-
       BCS.deserializeElements (AnySignature.deserialize P)
                               (Z.to_nat (popcount bitmap)) rest ;;
     s <- MultiKeySignature.constructor
            (map MultiKeySignature.OfAnySignature signatures)
            (MultiKeySignature.OfUint8Array bitmap) ;;
     Ok (s, rest')).
Proof.
  intros Hr. unfold MultiKeySignature.deserialize, BCS.deserializeBytes.
  rewrite deserializeUleb128AsU32_uleb128 by exact Hr. simpl.
  rewrite Nat2Z.id, take_bytes_app. simpl.
  rewrite nSignatures_popcount. reflexivity.
Qed.

(** The input ending before the last signature is a failure. *)
Lemma deserializeElements_truncated {A : Type} (de : BCS.Deserializer A) (n : nat) :
  de [] = Err TruncatedInput ->
  BCS.deserializeElements de (S n) [] = Err TruncatedInput.
Proof. intros H. simpl. rewrite H. reflexivity. Qed.

Lemma AnySignature_deserialize_nil :
  AnySignature.deserialize P [] = Err TruncatedInput.
Proof. reflexivity. Qed.

Lemma MultiKeySignature_deserialize_truncated (bitmap : list byte) :
  0 <= Z.of_nat (length bitmap) <= BCS.MAX_U32_NUMBER ->
  0 < popcount bitmap ->
  MultiKeySignature.deserialize P
    (BCS.uleb128 5 (Z.of_nat (length bitmap)) ++ bitmap ++ [])
  = Err TruncatedInput.
Proof.
  intros Hr Hpop. rewrite MultiKeySignature_deserialize_bitmap by exact Hr.
  destruct (Z.to_nat (popcount bitmap)) as [|n] eqn:E; [lia|].
  rewrite deserializeElements_truncated by apply AnySignature_deserialize_nil.
  reflexivity.
Qed.

Lemma deserializeElements_length {A : Type} (de : BCS.Deserializer A) (n : nat) :
  forall input xs rest,
    BCS.deserializeElements de n input = Ok (xs, rest) -> length xs = n.
Proof.
  induction n as [|n IH]; intros input xs rest H; simpl in H.
  - apply Ok_inj in H. injection H as <- _. reflexivity.
  - bind_inv H. destruct x as [a r]. bind_inv H. destruct x as [xs' r'].
    apply Ok_inj in H. injection H as <- _. simpl. f_equal. eauto.
Qed.

(** [deserialize] either fails or returns a value with exactly as many
    signatures as the bitmap it read has bits set. *)
Lemma MultiKeySignature_deserialize_count
      (input rest : list byte) (s : MultiKeySignature.t) :
  MultiKeySignature.deserialize P input = Ok (s, rest) ->
  Z.of_nat (length (MultiKeySignature.signatures s))
  = popcount (MultiKeySignature.bitmap s) /\
  length (MultiKeySignature.bitmap s) = 4%nat.
Proof.
  unfold MultiKeySignature.deserialize. intros H.
  bind_inv H. destruct x as [bitmap r]. bind_inv H. destruct x as [sigs r'].
  bind_inv H. apply Ok_inj in H. injection H as <- _.
  apply MultiKeySignature_constructor_Ok in Hx1.
  destruct Hx1 as (_ & Hbm & _ & Hpop). split; [lia|].
  simpl in Hbm. unfold MultiKeySignature.BITMAP_LEN in Hbm.
  destruct (Z.eqb_spec (Z.of_nat (length bitmap)) 4) as [E|E]; [|discriminate].
  simpl in Hbm. apply Ok_inj in Hbm. rewrite <- Hbm. lia.
Qed.

(** Decoding a [MultiKeySignature] inverts its encoding when the two
    members of [SigningSchemeInput] are the signature variants. *)
Lemma MultiKeySignature_roundtrip (s : MultiKeySignature.t) (bytes rest : list byte) :
  SigningSchemeInput_Ed25519 SSI
  = AnySignatureVariant_value AnySignatureVariant_Ed25519 ->
  SigningSchemeInput_Secp256k1Ecdsa SSI
  = AnySignatureVariant_value AnySignatureVariant_Secp256k1 ->
  Forall (fun x => AnySignature.paired x = true /\ AnySignature.well_sized P x)
         (MultiKeySignature.signatures s) ->
  length (MultiKeySignature.bitmap s) = 4%nat ->
  popcount (MultiKeySignature.bitmap s)
  = Z.of_nat (length (MultiKeySignature.signatures s)) ->
  MultiKeySignature.serialize SSI s = Ok bytes ->
  MultiKeySignature.deserialize P (bytes ++ rest) = Ok (s, rest).
Proof.
  intros He Hk Hsigs Hbm Hpop Hser.
  apply MultiKeySignature_serialize_layout in Hser.
  destruct Hser as (sigs & Hel & Hr & ->).
  rewrite <- !app_assoc.
  rewrite MultiKeySignature_deserialize_bitmap by exact Hr.
  rewrite Hpop, Nat2Z.id.
  rewrite (deserializeElements_serializeElements (AnySignature.serialize SSI)
             (AnySignature.deserialize P) (MultiKeySignature.signatures s))
    with (1 := fun v b r Hin Hs =>
                 AnySignature_roundtrip P SSI v b r He Hk
                   (proj1 (proj1 (Forall_forall _ _) Hsigs v Hin))
                   (proj2 (proj1 (Forall_forall _ _) Hsigs v Hin)) Hs)
         (2 := Hel).
  simpl.
  rewrite (MultiKeySignature_constructor_cases _ _ (MultiKeySignature.bitmap s)).
  - rewrite length_map, Hpop, Z.eqb_refl. simpl.
    rewrite map_normalize_OfAnySignature. destruct s. reflexivity.
  - rewrite length_map, <- Hpop.
    pose proof (popcount_bound (MultiKeySignature.bitmap s)) as Hb.
    rewrite Hbm in Hb. change MultiKeySignature.MAX_SIGNATURES_SUPPORTED with 32.
    lia.
  - simpl. rewrite Hbm. reflexivity.
Qed.

Lemma deserializeElements_head {A : Type} (de : BCS.Deserializer A) (n : nat)
      (input rest : list byte) (a : A) (tl : list A) :
  BCS.deserializeElements de n input = Ok (a :: tl, rest) ->
  exists rest1, de input = Ok (a, rest1).
Proof.
  destruct n as [|n]; simpl; intros H.
  - apply Ok_inj in H. discriminate H.
  - bind_inv H. destruct x as [a' r1]. bind_inv H. destruct x as [xs r2].
    apply Ok_inj in H. injection H as <- _ _. eauto.
Qed.

(** C7. The decoder does not invert the encoder on a [MultiKeySignature]
    that starts with a Secp256k1 signature: the tag written for it is
    [SigningSchemeInput.Secp256k1Ecdsa], and whenever that constant is not
    [AnySignatureVariant.Secp256k1] the first signature read back is
    rejected or is not a Secp256k1 signature. *)
Theorem MultiKeySignature_roundtrip_breaks
        (x : MultiKeySignature.t) (sig : Secp256k1Signature)
        (others : list AnySignature.t) (bytes rest : list byte)
        (Htag : SigningSchemeInput_Secp256k1Ecdsa SSI
                <> AnySignatureVariant_value AnySignatureVariant_Secp256k1)
        (Hfirst : MultiKeySignature.signatures x
                  = AnySignature.fromSignature (AnySignature.OfSecp256k1 sig) :: others)
        (Hser : MultiKeySignature.serialize SSI x = Ok bytes) :
  MultiKeySignature.deserialize P (bytes ++ rest) <> Ok (x, rest).
Proof.
  apply MultiKeySignature_serialize_layout in Hser.
  destruct Hser as (sigs & Hel & Hr & ->).
  rewrite Hfirst in Hel. simpl in Hel.
  bind_inv_as Hel b1 Hb1. bind_inv_as Hel b2 Hb2. apply Ok_inj in Hel. subst sigs.
  rewrite AnySignature_serialize_tag_body in Hb1.
  bind_inv_as Hb1 tg Htg. apply Ok_inj in Hb1. subst b1.
  apply serializeU32AsUleb128_Ok in Htg. destruct Htg as [Hr2 ->].
  rewrite <- !app_assoc, MultiKeySignature_deserialize_bitmap by exact Hr.
  intros H. bind_inv_as H els Hels. destruct els as [sigs' r'].
  bind_inv_as H x' Hx'. apply Ok_inj in H. injection H as -> _.
  apply MultiKeySignature_constructor_Ok in Hx'.
  destruct Hx' as (_ & _ & Hsigs & _).
  rewrite map_normalize_OfAnySignature, Hfirst in Hsigs. subst sigs'.
  apply deserializeElements_head in Hels. destruct Hels as [r1 Hde].
  apply AnySignature_deserialize_foreign_tag in Hde; [|exact Hr2|exact Htag].
  destruct Hde as [sig' Hde]. discriminate Hde.
Qed.

(** C8. On a key set of three keys, the positions 0 and 2 give the bitmap
    [0b10100000 00000000 00000000 00000000]; a single position [i] sets
    bit [i mod 8], from the most significant one, of byte [i / 8] and no
    other; and after that bitmap [MultiKeySignature.deserialize] reads two
    signatures, no fewer and no more. *)
Theorem bitmap_0_2_reads_two_signatures (mk : MultiKey.t)
        (Hn : length (MultiKey.publicKeys mk) = 3%nat) :
  MultiKey.createBitmap mk [0; 2] = Ok [xa0; x00; x00; x00] /\
  (forall i j, 0 <= i < 32 -> 0 <= j < 32 ->
     exists bitmap, MultiKey.createBitmap mk [i] = Ok bitmap /\
                    bitmap_bit bitmap j = (i =? j)) /\
  (forall rest,
     MultiKeySignature.deserialize P (x04 :: xa0 :: x00 :: x00 :: x00 :: rest)
     = ('(s1, rest1) <- AnySignature.deserialize P rest ;;
        '(s2, rest2) <- AnySignature.deserialize P rest1 ;;
        Ok ({| MultiKeySignature.signatures := [s1; s2];
               MultiKeySignature.bitmap := [xa0; x00; x00; x00] |}, rest2))).
Proof.
  split; [|split].
  - unfold MultiKey.createBitmap. rewrite Hn. reflexivity.
  - intros i j Hi Hj. eexists. split.
    + apply MultiKey_createBitmap_single. lia.
    + apply set_bit_bitmap_bit; assumption.
  - intros rest.
    change (x04 :: xa0 :: x00 :: x00 :: x00 :: rest)
      with (BCS.uleb128 5 (Z.of_nat (length [xa0; x00; x00; x00]))
            ++ [xa0; x00; x00; x00] ++ rest).
    rewrite MultiKeySignature_deserialize_bitmap
      by (vm_compute; split; discriminate).
    change (Z.to_nat (popcount [xa0; x00; x00; x00])) with 2%nat.
    cbn [BCS.deserializeElements].
    destruct (AnySignature.deserialize P rest) as [[s1 r1]|e]; [|reflexivity].
    cbn [bind].
    destruct (AnySignature.deserialize P r1) as [[s2 r2]|e]; reflexivity.
Qed.

End MultiKeySignatureCodec.

Lemma MultiKeySignature_roundtrip_breaks_witness :
  SigningSchemeInput_Secp256k1Ecdsa SigningSchemeInput_0_2
  <> AnySignatureVariant_value AnySignatureVariant_Secp256k1 /\
  MultiKeySignature.constructor
    [MultiKeySignature.OfSecp256k1 (sample_secp_sig x07)]
    (MultiKeySignature.OfBits [0])
  = Ok sample_MultiKeySignature_secp /\
  MultiKeySignature.serialize SigningSchemeInput_0_2 sample_MultiKeySignature_secp
  = Ok (x04 :: x80 :: x00 :: x00 :: x00 :: x02 :: repeat x07 64) /\
  MultiKeySignature.deserialize sample_Primitives
    ((x04 :: x80 :: x00 :: x00 :: x00 :: x02 :: repeat x07 64) ++ [])
  <> Ok (sample_MultiKeySignature_secp, []).
Proof.
  split; [simpl; lia|]. split; [reflexivity|]. split; [reflexivity|].
  apply (MultiKeySignature_roundtrip_breaks sample_Primitives SigningSchemeInput_0_2
           sample_MultiKeySignature_secp (sample_secp_sig x07) []
           (x04 :: x80 :: x00 :: x00 :: x00 :: x02 :: repeat x07 64) []).
  - simpl; lia.
  - reflexivity.
  - reflexivity.
Defined.

Lemma bitmap_0_2_reads_two_signatures_witness :
  length (MultiKey.publicKeys sample_MultiKey) = 3%nat /\
  MultiKey.createBitmap sample_MultiKey [0; 2] = Ok [xa0; x00; x00; x00].
Proof.
  split; [reflexivity|].
  apply (bitmap_0_2_reads_two_signatures sample_Primitives sample_MultiKey).
  reflexivity.
Defined.


(** * Further properties of the wrappers *)

(** ** [AnyPublicKey] and [AnySignature] *)

Lemma take_bytes_Ok_length (n : nat) (input bs rest : list byte) :
  BCS.take_bytes n input = Ok (bs, rest) -> length bs = n.
Proof. intros H. apply take_bytes_length in H. tauto. Qed.

Lemma AnyPublicKey_deserialize_Ok (P : Primitives) (input rest : list byte)
      (k : AnyPublicKey.t) :
  AnyPublicKey.deserialize P input = Ok (k, rest) ->
  AnyPublicKey.paired k = true /\ AnyPublicKey.well_sized P k.
Proof.
  intros H. split; [exact (AnyPublicKey_deserialize_paired P input rest k H)|].
  unfold AnyPublicKey.deserialize in H.
  bind_inv_as H tg Htg. destruct tg as [variantIndex r].
  destruct (variantIndex =? _).
  - unfold Ed25519PublicKey_deserialize, BCS.deserializeFixedBytes in H.
    bind_inv_as H pk Hpk. destruct pk as [pk r'].
    apply Ok_inj in H. injection H as <- _.
    bind_inv_as Hpk bs Hbs. destruct bs as [bs r''].
    apply Ok_inj in Hpk. injection Hpk as <- _.
    apply take_bytes_Ok_length in Hbs. exact Hbs.
  - destruct (variantIndex =? _); [|discriminate].
    unfold Secp256k1PublicKey_deserialize, BCS.deserializeFixedBytes in H.
    bind_inv_as H pk Hpk. destruct pk as [pk r'].
    apply Ok_inj in H. injection H as <- _.
    bind_inv_as Hpk bs Hbs. destruct bs as [bs r''].
    apply Ok_inj in Hpk. injection Hpk as <- _.
    apply take_bytes_Ok_length in Hbs. exact Hbs.
Qed.

Lemma AnySignature_deserialize_Ok (P : Primitives) (input rest : list byte)
      (s : AnySignature.t) :
  AnySignature.deserialize P input = Ok (s, rest) ->
  AnySignature.paired s = true /\ AnySignature.well_sized P s.
Proof.
  intros H. split; [exact (AnySignature_deserialize_paired P input rest s H)|].
  unfold AnySignature.deserialize in H.
  bind_inv_as H tg Htg. destruct tg as [variantIndex r].
  destruct (variantIndex =? _).
  - unfold Ed25519Signature_deserialize, BCS.deserializeFixedBytes in H.
    bind_inv_as H pk Hpk. destruct pk as [pk r'].
    apply Ok_inj in H. injection H as <- _.
    bind_inv_as Hpk bs Hbs. destruct bs as [bs r''].
    apply Ok_inj in Hpk. injection Hpk as <- _.
    apply take_bytes_Ok_length in Hbs. exact Hbs.
  - destruct (variantIndex =? _); [|discriminate].
    unfold Secp256k1Signature_deserialize, BCS.deserializeFixedBytes in H.
    bind_inv_as H pk Hpk. destruct pk as [pk r'].
    apply Ok_inj in H. injection H as <- _.
    bind_inv_as Hpk bs Hbs. destruct bs as [bs r''].
    apply Ok_inj in Hpk. injection Hpk as <- _.
    apply take_bytes_Ok_length in Hbs. exact Hbs.
Qed.

(** X1. A key wrapped by [fromPublicKey] serializes, and deserializing the
    bytes gives the key back and leaves what follows them unread. *)
Theorem AnyPublicKey_decode_encode (P : Primitives)
        (pk : AnyPublicKey.PublicKeyInput) (rest : list byte)
        (Hsize : AnyPublicKey.well_sized P (AnyPublicKey.fromPublicKey pk)) :
  exists bytes,
    AnyPublicKey.serialize (AnyPublicKey.fromPublicKey pk) = Ok bytes /\
    AnyPublicKey.deserialize P (bytes ++ rest)
    = Ok (AnyPublicKey.fromPublicKey pk, rest).
Proof.
  destruct (AnyPublicKey_serialize_Ok (AnyPublicKey.fromPublicKey pk)) as [bytes Hb].
  exists bytes. split; [exact Hb|].
  apply AnyPublicKey_roundtrip;
    [apply AnyPublicKey_fromPublicKey_paired | exact Hsize | exact Hb].
Qed.

Lemma AnyPublicKey_decode_encode_witness :
  AnyPublicKey.well_sized sample_Primitives sample_AnyPublicKey_ed /\
  exists bytes,
    AnyPublicKey.serialize sample_AnyPublicKey_ed = Ok bytes /\
    AnyPublicKey.deserialize sample_Primitives (bytes ++ [x2a])
    = Ok (sample_AnyPublicKey_ed, [x2a]).
Proof.
  split; [reflexivity|].
  apply (AnyPublicKey_decode_encode sample_Primitives
           (AnyPublicKey.OfEd25519 (sample_ed_key x01)) [x2a]).
  reflexivity.
Defined.

(** X2. The serialization of [AnyPublicKey] is one-to-one on the keys whose
    variant matches the wrapped class: two such keys with the same bytes are
    the same key. *)
Theorem AnyPublicKey_serialize_injective (k1 k2 : AnyPublicKey.t) (bytes : list byte)
        (Hp1 : AnyPublicKey.paired k1 = true)
        (Hp2 : AnyPublicKey.paired k2 = true)
        (Hs1 : AnyPublicKey.serialize k1 = Ok bytes)
        (Hs2 : AnyPublicKey.serialize k2 = Ok bytes) :
  k1 = k2.
Proof.
  destruct k1 as [[[b1]|[b1]] [|]]; try discriminate Hp1;
    destruct k2 as [[[b2]|[b2]] [|]]; try discriminate Hp2;
    apply Ok_inj in Hs1; apply Ok_inj in Hs2; subst bytes;
    simpl in Hs2; try discriminate Hs2;
    injection Hs2 as ->; reflexivity.
Qed.

Lemma AnyPublicKey_serialize_injective_witness :
  AnyPublicKey.paired sample_AnyPublicKey_ed = true /\
  AnyPublicKey.serialize sample_AnyPublicKey_ed = Ok sample_ed_key_bytes /\
  sample_AnyPublicKey_ed = sample_AnyPublicKey_ed.
Proof.
  split; [reflexivity|]. split; [reflexivity|].
  apply (AnyPublicKey_serialize_injective
           sample_AnyPublicKey_ed sample_AnyPublicKey_ed sample_ed_key_bytes);
    reflexivity.
Defined.

(** X3. Both deserializers reject an input whose leading tag is neither 0
    nor 1 with the unknown-variant error. *)
Theorem deserialize_unknown_variant (P : Primitives) (input rest : list byte) (tag : Z)
        (Htag : BCS.deserializeUleb128AsU32 input = Ok (tag, rest))
        (H0 : tag <> 0) (H1 : tag <> 1) :
  AnyPublicKey.deserialize P input = Err UnknownVariant /\
  AnySignature.deserialize P input = Err UnknownVariant.
Proof.
  unfold AnyPublicKey.deserialize, AnySignature.deserialize. rewrite Htag.
  cbn [bind]. simpl.
  destruct (Z.eqb_spec tag 0); [contradiction|].
  destruct (Z.eqb_spec tag 1); [contradiction|]. split; reflexivity.
Qed.

Lemma deserialize_unknown_variant_witness :
  BCS.deserializeUleb128AsU32 (x63 :: repeat x01 32) = Ok (99, repeat x01 32) /\
  99 <> 0 /\ 99 <> 1 /\
  AnyPublicKey.deserialize sample_Primitives (x63 :: repeat x01 32) = Err UnknownVariant /\
  AnySignature.deserialize sample_Primitives (x63 :: repeat x01 32) = Err UnknownVariant.
Proof.
  split; [reflexivity|]. split; [lia|]. split; [lia|].
  apply (deserialize_unknown_variant sample_Primitives
           (x63 :: repeat x01 32) (repeat x01 32) 99); [reflexivity | lia | lia].
Defined.

(** X4. What [AnyPublicKey.deserialize] returns is well formed: the variant
    matches the class of the key read, and the key has the length of its
    scheme. *)
Theorem AnyPublicKey_deserialize_sound (P : Primitives) (input rest : list byte)
        (k : AnyPublicKey.t)
        (Hde : AnyPublicKey.deserialize P input = Ok (k, rest)) :
  AnyPublicKey.paired k = true /\ AnyPublicKey.well_sized P k.
Proof. exact (AnyPublicKey_deserialize_Ok P input rest k Hde). Qed.

Lemma AnyPublicKey_deserialize_sound_witness :
  AnyPublicKey.deserialize sample_Primitives sample_ed_key_bytes
  = Ok (sample_AnyPublicKey_ed, []) /\
  AnyPublicKey.paired sample_AnyPublicKey_ed = true /\
  AnyPublicKey.well_sized sample_Primitives sample_AnyPublicKey_ed.
Proof.
  split; [reflexivity|].
  apply (AnyPublicKey_deserialize_sound sample_Primitives sample_ed_key_bytes []).
  reflexivity.
Defined.

(** X5. What [AnySignature.deserialize] returns is well formed too: it never
    builds a signature under the variant of the other scheme, although the
    public constructor allows it. *)
Theorem AnySignature_deserialize_sound (P : Primitives) (input rest : list byte)
        (s : AnySignature.t)
        (Hde : AnySignature.deserialize P input = Ok (s, rest)) :
  AnySignature.paired s = true /\ AnySignature.well_sized P s.
Proof. exact (AnySignature_deserialize_Ok P input rest s Hde). Qed.

Lemma AnySignature_deserialize_sound_witness :
  AnySignature.deserialize sample_Primitives sample_ed_sig_bytes
  = Ok (sample_AnySignature_ed, []) /\
  AnySignature.paired sample_AnySignature_ed = true /\
  AnySignature.well_sized sample_Primitives sample_AnySignature_ed.
Proof.
  split; [reflexivity|].
  apply (AnySignature_deserialize_sound sample_Primitives sample_ed_sig_bytes []).
  reflexivity.
Defined.

(** X6. On a key whose variant matches the wrapped class, the guards
    [isEd25519] and [isSecp256k1] tell the class of the wrapped key, and
    exactly one of them holds. *)
Theorem AnyPublicKey_guards (k : AnyPublicKey.t)
        (Hp : AnyPublicKey.paired k = true) :
  (AnyPublicKey.isEd25519 k = true
   <-> exists pk, AnyPublicKey.publicKey k = AnyPublicKey.OfEd25519 pk) /\
  (AnyPublicKey.isSecp256k1 k = true
   <-> exists pk, AnyPublicKey.publicKey k = AnyPublicKey.OfSecp256k1 pk) /\
  AnyPublicKey.isSecp256k1 k = negb (AnyPublicKey.isEd25519 k).
Proof.
  destruct k as [[pk|pk] [|]]; try discriminate Hp; simpl.
  - split; [split; [intros _; eexists; reflexivity | reflexivity]|].
    split; [|reflexivity].
    split; [discriminate | intros [pk' E]; discriminate E].
  - split; [split; [discriminate | intros [pk' E]; discriminate E]|].
    split; [|reflexivity].
    split; [intros _; eexists; reflexivity | reflexivity].
Qed.

Lemma AnyPublicKey_guards_witness :
  AnyPublicKey.paired sample_AnyPublicKey_ed = true /\
  AnyPublicKey.isSecp256k1 sample_AnyPublicKey_ed
  = negb (AnyPublicKey.isEd25519 sample_AnyPublicKey_ed).
Proof.
  split; [reflexivity|].
  apply (AnyPublicKey_guards sample_AnyPublicKey_ed). reflexivity.
Defined.

(** ** [MultiKey] *)

Lemma deserializeElements_Forall {A : Type} (de : BCS.Deserializer A)
      (Q : A -> Prop) (n : nat) :
  (forall input x rest, de input = Ok (x, rest) -> Q x) ->
  forall input xs rest,
    BCS.deserializeElements de n input = Ok (xs, rest) -> Forall Q xs.
Proof.
  intros Hde. induction n as [|n IH]; intros input xs rest H; simpl in H.
  - apply Ok_inj in H. injection H as <- _. constructor.
  - bind_inv_as H a Ha. destruct a as [a r]. bind_inv_as H more Hmore.
    destruct more as [more r']. apply Ok_inj in H. injection H as <- _.
    constructor; [exact (Hde _ _ _ Ha) | exact (IH _ _ _ Hmore)].
Qed.

Lemma MultiKey_deserialize_Ok (P : Primitives) (input rest : list byte) (mk : MultiKey.t) :
  MultiKey.deserialize P input = Ok (mk, rest) ->
  Forall (fun k => AnyPublicKey.paired k = true /\ AnyPublicKey.well_sized P k)
         (MultiKey.publicKeys mk) /\
  1 <= MultiKey.signaturesRequired mk <= Z.of_nat (length (MultiKey.publicKeys mk)) /\
  MultiKey.signaturesRequired mk <= 255.
Proof.
  unfold MultiKey.deserialize, BCS.deserializeVector. intros H.
  bind_inv_as H keys Hkeys. destruct keys as [keys r].
  bind_inv_as H thr Hthr. destruct thr as [t r'].
  bind_inv_as H mk' Hmk. apply Ok_inj in H. injection H as -> _.
  bind_inv_as Hkeys count Hcount. destruct count as [count r0].
  apply (deserializeElements_Forall (AnyPublicKey.deserialize P)
           (fun k => AnyPublicKey.paired k = true /\ AnyPublicKey.well_sized P k))
    in Hkeys; [|intros i x r1 Hx; exact (AnyPublicKey_deserialize_Ok P i r1 x Hx)].
  pose proof (MultiKey_constructor_Ok _ _ _ Hmk) as Hrange.
  unfold MultiKey.constructor in Hmk.
  destruct (t <? 1); [discriminate Hmk|].
  destruct (Z.of_nat (length (map MultiKey.OfAnyPublicKey keys)) <? t);
    [discriminate Hmk|].
  apply Ok_inj in Hmk. subst mk. simpl in *.
  rewrite map_normalize_OfAnyPublicKey in *.
  split; [exact Hkeys|]. split; [exact Hrange|].
  unfold BCS.deserializeU8 in Hthr. destruct r as [|b r]; [discriminate Hthr|].
  apply Ok_inj in Hthr. injection Hthr as <- _.
  apply Z_of_byte_range.
Qed.

(** X7. Decoding validates: a [MultiKey] returned by [deserialize] has at
    least one required signature, no more than it has keys and no more than
    a byte holds, and each of its keys is well formed. *)
Theorem MultiKey_deserialize_sound (P : Primitives) (input rest : list byte)
        (mk : MultiKey.t)
        (Hde : MultiKey.deserialize P input = Ok (mk, rest)) :
  Forall (fun k => AnyPublicKey.paired k = true /\ AnyPublicKey.well_sized P k)
         (MultiKey.publicKeys mk) /\
  1 <= MultiKey.signaturesRequired mk <= Z.of_nat (length (MultiKey.publicKeys mk)) /\
  MultiKey.signaturesRequired mk <= 255.
Proof. exact (MultiKey_deserialize_Ok P input rest mk Hde). Qed.

Lemma MultiKey_deserialize_sound_witness :
  MultiKey.deserialize sample_Primitives sample_MultiKey_bytes
  = Ok (sample_MultiKey, []) /\
  1 <= MultiKey.signaturesRequired sample_MultiKey
    <= Z.of_nat (length (MultiKey.publicKeys sample_MultiKey)).
Proof.
  split; [vm_compute; reflexivity|].
  apply (MultiKey_deserialize_sound sample_Primitives sample_MultiKey_bytes []).
  vm_compute; reflexivity.
Defined.

(** X8. A key sequence followed by a threshold byte of 0, or by one above the
    number of keys, does not decode: [deserialize] runs the checks of the
    constructor and fails with the threshold error. *)
Theorem MultiKey_deserialize_rejects_threshold (P : Primitives)
        (keys : list AnyPublicKey.t) (encoded rest : list byte) (threshold : byte)
        (Hkeys : Forall (fun k => AnyPublicKey.paired k = true /\
                                  AnyPublicKey.well_sized P k) keys)
        (Henc : BCS.serializeVector AnyPublicKey.serialize keys = Ok encoded)
        (Hbad : Z_of_byte threshold < 1 \/
                Z.of_nat (length keys) < Z_of_byte threshold) :
  MultiKey.deserialize P (encoded ++ threshold :: rest) = Err InvalidThreshold.
Proof.
  unfold MultiKey.deserialize.
  rewrite (deserializeVector_serializeVector AnyPublicKey.serialize
             (AnyPublicKey.deserialize P) keys)
    with (1 := fun v b r Hin Hs =>
                 AnyPublicKey_roundtrip P v b r
                   (proj1 (proj1 (Forall_forall _ _) Hkeys v Hin))
                   (proj2 (proj1 (Forall_forall _ _) Hkeys v Hin)) Hs)
         (2 := Henc).
  simpl. unfold MultiKey.constructor. rewrite length_map.
  destruct (Z.ltb_spec (Z_of_byte threshold) 1) as [|Hge]; [reflexivity|].
  destruct (Z.ltb_spec (Z.of_nat (length keys)) (Z_of_byte threshold));
    [reflexivity | lia].
Qed.

Lemma MultiKey_deserialize_rejects_threshold_witness :
  BCS.serializeVector AnyPublicKey.serialize (MultiKey.publicKeys sample_MultiKey)
  = Ok sample_keys_bytes /\
  Z.of_nat (length (MultiKey.publicKeys sample_MultiKey)) < Z_of_byte x04 /\
  MultiKey.deserialize sample_Primitives (sample_keys_bytes ++ x04 :: [])
  = Err InvalidThreshold.
Proof.
  split; [vm_compute; reflexivity|]. split; [vm_compute; reflexivity|].
  apply (MultiKey_deserialize_rejects_threshold sample_Primitives
           (MultiKey.publicKeys sample_MultiKey) sample_keys_bytes [] x04).
  - repeat (constructor; [split; reflexivity|]). constructor.
  - vm_compute; reflexivity.
  - right. vm_compute; reflexivity.
Defined.

(** X9. A [MultiKey] built by the constructor from keys of the right lengths
    decodes back from the bytes it serializes to, and the bytes after them
    are left unread. *)
Theorem MultiKey_decode_encode (P : Primitives)
        (publicKeys : list MultiKey.PublicKeyInput) (signaturesRequired : Z)
        (mk : MultiKey.t) (bytes rest : list byte)
        (Hmk : MultiKey.constructor publicKeys signaturesRequired = Ok mk)
        (Hkeys : Forall (fun k => AnyPublicKey.paired k = true /\
                                  AnyPublicKey.well_sized P k)
                        (map MultiKey.normalize publicKeys))
        (Hser : MultiKey.serialize mk = Ok bytes) :
  MultiKey.deserialize P (bytes ++ rest) = Ok (mk, rest).
Proof.
  pose proof (MultiKey_constructor_Ok _ _ _ Hmk) as Hrange.
  apply MultiKey_roundtrip; [|exact Hrange|exact Hser].
  unfold MultiKey.constructor in Hmk.
  destruct (signaturesRequired <? 1); [discriminate Hmk|].
  destruct (Z.of_nat (length publicKeys) <? signaturesRequired); [discriminate Hmk|].
  apply Ok_inj in Hmk. subst mk. exact Hkeys.
Qed.

Lemma MultiKey_decode_encode_witness :
  MultiKey.constructor sample_keys 2 = Ok sample_MultiKey /\
  MultiKey.serialize sample_MultiKey = Ok sample_MultiKey_bytes /\
  MultiKey.deserialize sample_Primitives (sample_MultiKey_bytes ++ [x2a])
  = Ok (sample_MultiKey, [x2a]).
Proof.
  split; [reflexivity|]. split; [vm_compute; reflexivity|].
  apply (MultiKey_decode_encode sample_Primitives sample_keys 2
           sample_MultiKey sample_MultiKey_bytes [x2a]).
  - reflexivity.
  - repeat (constructor; [split; reflexivity|]). constructor.
  - vm_compute; reflexivity.
Defined.

(** X10. The bytes [toUint8Array] returns, which [authKey] derives the
    authentication key from, determine the key set: two well-formed
    [MultiKey] values with the same bytes have the same keys and threshold. *)
Theorem MultiKey_toUint8Array_injective (P : Primitives)
        (mk1 mk2 : MultiKey.t) (bytes : list byte)
        (Hk1 : Forall (fun k => AnyPublicKey.paired k = true /\
                                AnyPublicKey.well_sized P k)
                      (MultiKey.publicKeys mk1))
        (Hk2 : Forall (fun k => AnyPublicKey.paired k = true /\
                                AnyPublicKey.well_sized P k)
                      (MultiKey.publicKeys mk2))
        (Ht1 : 1 <= MultiKey.signaturesRequired mk1
               <= Z.of_nat (length (MultiKey.publicKeys mk1)))
        (Ht2 : 1 <= MultiKey.signaturesRequired mk2
               <= Z.of_nat (length (MultiKey.publicKeys mk2)))
        (Hb1 : MultiKey.toUint8Array mk1 = Ok bytes)
        (Hb2 : MultiKey.toUint8Array mk2 = Ok bytes) :
  mk1 = mk2.
Proof.
  pose proof (MultiKey_roundtrip P mk1 bytes [] Hk1 Ht1 Hb1) as E1.
  pose proof (MultiKey_roundtrip P mk2 bytes [] Hk2 Ht2 Hb2) as E2.
  rewrite E1 in E2. apply Ok_inj in E2. injection E2 as E. exact E.
Qed.

Lemma MultiKey_toUint8Array_injective_witness :
  MultiKey.toUint8Array sample_MultiKey = Ok sample_MultiKey_bytes /\
  1 <= MultiKey.signaturesRequired sample_MultiKey
    <= Z.of_nat (length (MultiKey.publicKeys sample_MultiKey)) /\
  sample_MultiKey = sample_MultiKey.
Proof.
  split; [vm_compute; reflexivity|]. split; [simpl; lia|].
  apply (MultiKey_toUint8Array_injective sample_Primitives
           sample_MultiKey sample_MultiKey sample_MultiKey_bytes).
  - repeat (constructor; [split; reflexivity|]). constructor.
  - repeat (constructor; [split; reflexivity|]). constructor.
  - simpl; lia.
  - simpl; lia.
  - vm_compute; reflexivity.
  - vm_compute; reflexivity.
Defined.

(** ** Bitmaps *)

Lemma byte_ext (x y : byte) :
  (forall q, 0 <= q < 8 -> Z.testbit (Z_of_byte x) q = Z.testbit (Z_of_byte y) q) ->
  x = y.
Proof.
  intros H. rewrite <- (byte_of_Z_of_byte x), <- (byte_of_Z_of_byte y). f_equal.
  apply Z.bits_inj'. intros n Hn.
  destruct (Z_lt_le_dec n 8) as [Hlt|Hge]; [apply H; lia|].
  assert (Hhigh : forall b : byte, Z.testbit (Z_of_byte b) n = false).
  { intros b. pose proof (Z_of_byte_range b) as Hb.
    destruct (Z.eq_dec (Z_of_byte b) 0) as [->|Hnz]; [apply Z.testbit_0_l|].
    apply Z.bits_above_log2; [lia|].
    assert (Z.log2 (Z_of_byte b) < 8) by (apply Z.log2_lt_pow2; lia). lia. }
  rewrite !Hhigh. reflexivity.
Qed.

Lemma bitmap_bit_at (bitmap : Uint8Array) (k q : Z) :
  0 <= q < 8 ->
  bitmap_bit bitmap (k * 8 + (7 - q)) = Z.testbit (u8_get bitmap k) q.
Proof.
  intros Hq. unfold bitmap_bit.
  rewrite Z.div_add_l by lia. rewrite (Z.div_small (7 - q) 8) by lia.
  rewrite Z.add_0_r.
  rewrite Z.add_comm, Z.mod_add by lia. rewrite Z.mod_small by lia.
  f_equal. lia.
Qed.

(** Two four-byte bitmaps with the same 32 bits are the same bytes. *)
Lemma bitmap_ext (a b : Uint8Array) :
  length a = 4%nat -> length b = 4%nat ->
  (forall j, 0 <= j < 32 -> bitmap_bit a j = bitmap_bit b j) ->
  a = b.
Proof.
  intros Ha Hb H.
  destruct a as [|a0 [|a1 [|a2 [|a3 [|]]]]]; try discriminate Ha.
  destruct b as [|b0 [|b1 [|b2 [|b3 [|]]]]]; try discriminate Hb.
  assert (H0 : a0 = b0).
  { apply byte_ext. intros q Hq.
    pose proof (H (0 * 8 + (7 - q)) ltac:(lia)) as E.
    rewrite !bitmap_bit_at in E by lia. exact E. }
  assert (H1 : a1 = b1).
  { apply byte_ext. intros q Hq.
    pose proof (H (1 * 8 + (7 - q)) ltac:(lia)) as E.
    rewrite !bitmap_bit_at in E by lia. exact E. }
  assert (H2 : a2 = b2).
  { apply byte_ext. intros q Hq.
    pose proof (H (2 * 8 + (7 - q)) ltac:(lia)) as E.
    rewrite !bitmap_bit_at in E by lia. exact E. }
  assert (H3 : a3 = b3).
  { apply byte_ext. intros q Hq.
    pose proof (H (3 * 8 + (7 - q)) ltac:(lia)) as E.
    rewrite !bitmap_bit_at in E by lia. exact E. }
  subst. reflexivity.
Qed.

Lemma bitmap_bits_determine (a b : Uint8Array) (bits bits' : list Z) :
  length a = 4%nat -> length b = 4%nat ->
  (forall j, 0 <= j < 32 -> (bitmap_bit a j = true <-> In j bits)) ->
  (forall j, 0 <= j < 32 -> (bitmap_bit b j = true <-> In j bits')) ->
  (forall j, 0 <= j < 32 -> (In j bits <-> In j bits')) ->
  a = b.
Proof.
  intros Ha Hb Hbits Hbits' Hsame. apply bitmap_ext; [exact Ha | exact Hb|].
  intros j Hj. specialize (Hbits j Hj). specialize (Hbits' j Hj).
  specialize (Hsame j Hj).
  destruct (bitmap_bit a j), (bitmap_bit b j); try reflexivity; exfalso.
  - assert (true = true) as E by reflexivity.
    apply Hbits in E. apply Hsame in E. apply Hbits' in E. discriminate E.
  - assert (true = true) as E by reflexivity.
    apply Hbits' in E. apply Hsame in E. apply Hbits in E. discriminate E.
Qed.

(** X11. [MultiKey.createBitmap] accepts a list of positions exactly when it
    holds no more positions than the key set has keys and no position
    twice; the values of the positions are never compared with the number
    of keys. *)
Theorem MultiKey_createBitmap_accepts (mk : MultiKey.t) (bits : list Z) :
  (exists bitmap, MultiKey.createBitmap mk bits = Ok bitmap)
  <-> (length bits <= length (MultiKey.publicKeys mk))%nat /\ NoDup bits.
Proof. exact (MultiKey_createBitmap_Ok_iff mk bits). Qed.

(** X12. The bitmap [MultiKey.createBitmap] returns has four bytes, and among
    its 32 bits exactly the supplied positions are set, position [j] being
    bit [j mod 8], from the most significant, of byte [j / 8]. *)
Theorem MultiKey_createBitmap_sets (mk : MultiKey.t) (bits : list Z)
        (bitmap : Uint8Array)
        (Hbm : MultiKey.createBitmap mk bits = Ok bitmap) :
  length bitmap = 4%nat /\
  forall j, 0 <= j < 32 -> (bitmap_bit bitmap j = true <-> In j bits).
Proof.
  split.
  - exact (proj1 (MultiKey_createBitmap_bits mk bits bitmap 0 Hbm ltac:(lia))).
  - intros j Hj. exact (proj2 (MultiKey_createBitmap_bits mk bits bitmap j Hbm Hj)).
Qed.

Lemma MultiKey_createBitmap_sets_witness :
  MultiKey.createBitmap sample_MultiKey [2; 0] = Ok [xa0; x00; x00; x00] /\
  length [xa0; x00; x00; x00] = 4%nat /\
  forall j, 0 <= j < 32 ->
            (bitmap_bit [xa0; x00; x00; x00] j = true <-> In j [2; 0]).
Proof.
  split; [reflexivity|].
  apply (MultiKey_createBitmap_sets sample_MultiKey [2; 0] [xa0; x00; x00; x00]).
  reflexivity.
Defined.

(** X13. The order of the positions does not matter to
    [MultiKey.createBitmap]: a reordering of an accepted list is accepted
    and gives the same bitmap. *)
Theorem MultiKey_createBitmap_order (mk : MultiKey.t) (bits bits' : list Z)
        (bitmap : Uint8Array)
        (Hbm : MultiKey.createBitmap mk bits = Ok bitmap)
        (Hperm : Permutation bits bits') :
  MultiKey.createBitmap mk bits' = Ok bitmap.
Proof.
  assert (Hok : exists b, MultiKey.createBitmap mk bits' = Ok b).
  { apply MultiKey_createBitmap_Ok_iff.
    destruct (proj1 (MultiKey_createBitmap_Ok_iff mk bits)
                    (ex_intro _ bitmap Hbm)) as [Hlen Hnd].
    split; [rewrite <- (Permutation_length Hperm); exact Hlen|].
    exact (Permutation_NoDup Hperm Hnd). }
  destruct Hok as [b Hb]. rewrite Hb. f_equal.
  apply (bitmap_bits_determine b bitmap bits' bits).
  - exact (proj1 (MultiKey_createBitmap_bits mk bits' b 0 Hb ltac:(lia))).
  - exact (proj1 (MultiKey_createBitmap_bits mk bits bitmap 0 Hbm ltac:(lia))).
  - intros j Hj. exact (proj2 (MultiKey_createBitmap_bits mk bits' b j Hb Hj)).
  - intros j Hj. exact (proj2 (MultiKey_createBitmap_bits mk bits bitmap j Hbm Hj)).
  - intros j _. split; intros Hin.
    + exact (Permutation_in j (Permutation_sym Hperm) Hin).
    + exact (Permutation_in j Hperm Hin).
Qed.

Lemma MultiKey_createBitmap_order_witness :
  MultiKey.createBitmap sample_MultiKey [0; 2; 31] = Ok [xa0; x00; x00; x01] /\
  MultiKey.createBitmap sample_MultiKey [31; 0; 2] = Ok [xa0; x00; x00; x01].
Proof.
  split; [reflexivity|].
  apply (MultiKey_createBitmap_order sample_MultiKey [0; 2; 31] [31; 0; 2]).
  - reflexivity.
  - apply Permutation_sym, Permutation_cons_append.
Defined.

(** X14. [MultiKeySignature.createBitmap] accepts a list of positions exactly
    when every position is below 32 and none occurs twice; there is no
    lower bound. *)
Theorem MultiKeySignature_createBitmap_accepts (bits : list Z) :
  (exists bitmap, MultiKeySignature.createBitmap bits = Ok bitmap)
  <-> (forall bit, In bit bits -> bit < 32) /\ NoDup bits.
Proof. exact (MultiKeySignature_createBitmap_Ok_iff bits). Qed.

(** X15. The bitmap [MultiKeySignature.createBitmap] returns has four bytes,
    and among its 32 bits exactly the supplied positions are set. *)
Theorem MultiKeySignature_createBitmap_sets (bits : list Z) (bitmap : Uint8Array)
        (Hbm : MultiKeySignature.createBitmap bits = Ok bitmap) :
  length bitmap = 4%nat /\
  forall j, 0 <= j < 32 -> (bitmap_bit bitmap j = true <-> In j bits).
Proof.
  split.
  - exact (proj1 (MultiKeySignature_createBitmap_bits bits bitmap 0 Hbm ltac:(lia))).
  - intros j Hj.
    exact (proj2 (MultiKeySignature_createBitmap_bits bits bitmap j Hbm Hj)).
Qed.

Lemma MultiKeySignature_createBitmap_sets_witness :
  MultiKeySignature.createBitmap [0; 2; 31] = Ok [xa0; x00; x00; x01] /\
  length [xa0; x00; x00; x01] = 4%nat /\
  forall j, 0 <= j < 32 ->
            (bitmap_bit [xa0; x00; x00; x01] j = true <-> In j [0; 2; 31]).
Proof.
  split; [reflexivity|].
  apply (MultiKeySignature_createBitmap_sets [0; 2; 31] [xa0; x00; x00; x01]).
  reflexivity.
Defined.

(** X16. The order of the positions does not matter to
    [MultiKeySignature.createBitmap] either. *)
Theorem MultiKeySignature_createBitmap_order (bits bits' : list Z)
        (bitmap : Uint8Array)
        (Hbm : MultiKeySignature.createBitmap bits = Ok bitmap)
        (Hperm : Permutation bits bits') :
  MultiKeySignature.createBitmap bits' = Ok bitmap.
Proof.
  assert (Hok : exists b, MultiKeySignature.createBitmap bits' = Ok b).
  { apply MultiKeySignature_createBitmap_Ok_iff.
    destruct (proj1 (MultiKeySignature_createBitmap_Ok_iff bits)
                    (ex_intro _ bitmap Hbm)) as [Hall Hnd].
    split; [|exact (Permutation_NoDup Hperm Hnd)].
    intros bit Hin. apply Hall.
    exact (Permutation_in bit (Permutation_sym Hperm) Hin). }
  destruct Hok as [b Hb]. rewrite Hb. f_equal.
  apply (bitmap_bits_determine b bitmap bits' bits).
  - exact (proj1 (MultiKeySignature_createBitmap_bits bits' b 0 Hb ltac:(lia))).
  - exact (proj1 (MultiKeySignature_createBitmap_bits bits bitmap 0 Hbm ltac:(lia))).
  - intros j Hj. exact (proj2 (MultiKeySignature_createBitmap_bits bits' b j Hb Hj)).
  - intros j Hj. exact (proj2 (MultiKeySignature_createBitmap_bits bits bitmap j Hbm Hj)).
  - intros j _. split; intros Hin.
    + exact (Permutation_in j (Permutation_sym Hperm) Hin).
    + exact (Permutation_in j Hperm Hin).
Qed.

Lemma MultiKeySignature_createBitmap_order_witness :
  MultiKeySignature.createBitmap [0; 2; 31] = Ok [xa0; x00; x00; x01] /\
  MultiKeySignature.createBitmap [31; 0; 2] = Ok [xa0; x00; x00; x01].
Proof.
  split; [reflexivity|].
  apply (MultiKeySignature_createBitmap_order [0; 2; 31] [31; 0; 2]).
  - reflexivity.
  - apply Permutation_sym, Permutation_cons_append.
Defined.

(** ** The population count of a built bitmap *)

Lemma byte_popcount_set (b : byte) (p : Z) :
  0 <= p < 8 ->
  popcount8 (Z_of_byte (byte_of_Z (JS.or (Z_of_byte b) (JS.shr firstBitInByte p))))
  = popcount8 (Z_of_byte b) + (if Z.testbit (Z_of_byte b) (7 - p) then 0 else 1).
Proof.
  intros Hp.
  assert (Hall : forallb (fun x =>
            popcount8 (Z_of_byte (byte_of_Z
              (JS.or (Z_of_byte b) (JS.shr firstBitInByte (Z.of_nat x)))))
            =? popcount8 (Z_of_byte b)
               + (if Z.testbit (Z_of_byte b) (7 - Z.of_nat x) then 0 else 1))
            (seq 0 8) = true)
    by (destruct b; vm_compute; reflexivity).
  rewrite forallb_forall in Hall.
  specialize (Hall (Z.to_nat p)). rewrite in_seq in Hall.
  specialize (Hall ltac:(lia)). rewrite Z2Nat.id in Hall by lia.
  apply Z.eqb_eq in Hall. exact Hall.
Qed.

Lemma popcount_set_nth (arr : Uint8Array) (n : nat) (x y : byte) :
  nth_error arr n = Some x ->
  popcount (set_nth arr n y)
  = popcount arr - popcount8 (Z_of_byte x) + popcount8 (Z_of_byte y).
Proof.
  revert n. induction arr as [|a rest IH]; intros [|n] H; simpl in H;
    try discriminate H.
  - injection H as ->. simpl. lia.
  - cbn [set_nth popcount]. rewrite (IH n H). lia.
Qed.

Lemma popcount_set_bit (bitmap : Uint8Array) (i : Z) :
  0 <= i < 8 * Z.of_nat (length bitmap) ->
  popcount (set_bit bitmap i)
  = popcount bitmap + (if bitmap_bit bitmap i then 0 else 1).
Proof.
  intros Hi. unfold set_bit, bitmap_bit, u8_set, u8_get, JS.floor_div, JS.rem.
  assert (Hi8 : 0 <= i / 8 < Z.of_nat (length bitmap)).
  { split; [apply Z.div_pos; lia | apply Z.div_lt_upper_bound; lia]. }
  destruct (Z.ltb_spec (i / 8) 0) as [|_]; [lia|].
  rewrite Z.rem_mod_nonneg by lia.
  pose proof (Z.mod_pos_bound i 8 ltac:(lia)) as Him.
  destruct (nth_error bitmap (Z.to_nat (i / 8))) as [b|] eqn:Eb.
  2:{ apply nth_error_None in Eb. lia. }
  rewrite (popcount_set_nth _ _ b _ Eb), byte_popcount_set by lia. lia.
Qed.

Lemma in_slot_spec (bit : Z) : in_slot bit = true <-> 0 <= bit < 32.
Proof. unfold in_slot. rewrite andb_true_iff, Z.leb_le, Z.ltb_lt. tauto. Qed.

(** One turn of either loop adds one to the population count when the
    position is in a slot whose bit is clear, and nothing when it is outside
    the slots. *)
Lemma popcount_set_bit_fresh (bitmap : Uint8Array) (bit : Z) :
  length bitmap = 4%nat ->
  (in_slot bit = true -> bitmap_bit bitmap bit = false) ->
  popcount (set_bit bitmap bit)
  = popcount bitmap + (if in_slot bit then 1 else 0).
Proof.
  intros Hlen Hclear. destruct (in_slot bit) eqn:Es.
  - apply in_slot_spec in Es.
    rewrite popcount_set_bit by (rewrite Hlen; lia).
    rewrite Hclear by reflexivity. reflexivity.
  - assert (~ (0 <= bit < 32)) as Hout
        by (intros H; apply in_slot_spec in H; congruence).
    rewrite set_bit_outside by (rewrite Hlen; lia). lia.
Qed.

Lemma set_bit_keeps_marked (bitmap : Uint8Array) (bit : Z) (dupCheckSet : list Z) :
  length bitmap = 4%nat ->
  (forall j, 0 <= j < 32 -> bitmap_bit bitmap j = true -> In j dupCheckSet) ->
  forall j, 0 <= j < 32 ->
            bitmap_bit (set_bit bitmap bit) j = true -> In j (bit :: dupCheckSet).
Proof.
  intros Hlen Hinv j Hj H.
  rewrite set_bit_bitmap_bit_any in H by (rewrite Hlen; lia).
  apply orb_true_iff in H. destruct H as [E|E].
  - left. apply Z.eqb_eq in E. exact E.
  - right. exact (Hinv j Hj E).
Qed.

Lemma MultiKeySignature_createBitmap_loop_popcount (bits : list Z) :
  forall (dupCheckSet : list Z) (bitmap result : Uint8Array),
    MultiKeySignature.createBitmap_loop bits dupCheckSet bitmap = Ok result ->
    length bitmap = 4%nat ->
    (forall j, 0 <= j < 32 -> bitmap_bit bitmap j = true -> In j dupCheckSet) ->
    popcount result
    = popcount bitmap + Z.of_nat (length (filter in_slot bits)).
Proof.
  induction bits as [|bit rest IH]; intros dup bitmap result H Hlen Hinv.
  - apply Ok_inj in H. subst result. simpl. lia.
  - cbn [MultiKeySignature.createBitmap_loop] in H.
    destruct (bit >=? MultiKeySignature.MAX_SIGNATURES_SUPPORTED); [discriminate H|].
    destruct (set_has dup bit) eqn:Ehas; [discriminate H|].
    assert (Hfresh : in_slot bit = true -> bitmap_bit bitmap bit = false).
    { intros Es. apply in_slot_spec in Es.
      destruct (bitmap_bit bitmap bit) eqn:Eb; [|reflexivity].
      apply (Hinv bit Es) in Eb. apply set_has_In in Eb. congruence. }
    apply IH in H;
      [|rewrite set_bit_length; exact Hlen
       |exact (set_bit_keeps_marked bitmap bit dup Hlen Hinv)].
    rewrite H, (popcount_set_bit_fresh bitmap bit Hlen Hfresh).
    cbn [filter]. destruct (in_slot bit); cbn [length]; lia.
Qed.

Lemma MultiKey_createBitmap_loop_popcount (n : Z) (bits : list Z) :
  forall (idx : Z) (dupCheckSet : list Z) (bitmap result : Uint8Array),
    MultiKey.createBitmap_loop n bits idx dupCheckSet bitmap = Ok result ->
    length bitmap = 4%nat ->
    (forall j, 0 <= j < 32 -> bitmap_bit bitmap j = true -> In j dupCheckSet) ->
    popcount result
    = popcount bitmap + Z.of_nat (length (filter in_slot bits)).
Proof.
  induction bits as [|bit rest IH]; intros idx dup bitmap result H Hlen Hinv.
  - apply Ok_inj in H. subst result. simpl. lia.
  - cbn [MultiKey.createBitmap_loop] in H.
    destruct (idx + 1 >? n); [discriminate H|].
    destruct (set_has dup bit) eqn:Ehas; [discriminate H|].
    assert (Hfresh : in_slot bit = true -> bitmap_bit bitmap bit = false).
    { intros Es. apply in_slot_spec in Es.
      destruct (bitmap_bit bitmap bit) eqn:Eb; [|reflexivity].
      apply (Hinv bit Es) in Eb. apply set_has_In in Eb. congruence. }
    apply IH in H;
      [|rewrite set_bit_length; exact Hlen
       |exact (set_bit_keeps_marked bitmap bit dup Hlen Hinv)].
    rewrite H, (popcount_set_bit_fresh bitmap bit Hlen Hfresh).
    cbn [filter]. destruct (in_slot bit); cbn [length]; lia.
Qed.

Lemma zero_bitmap_unmarked (j : Z) :
  0 <= j < 32 -> bitmap_bit [x00; x00; x00; x00] j = true -> In j [].
Proof. intros _ H. rewrite bitmap_bit_zero in H. discriminate H. Qed.

Lemma filter_all {A : Type} (f : A -> bool) (l : list A) :
  (forall x, In x l -> f x = true) -> filter f l = l.
Proof.
  induction l as [|a l IH]; intros H; simpl; [reflexivity|].
  rewrite (H a (or_introl eq_refl)). f_equal. apply IH.
  intros x Hx. apply H. right. exact Hx.
Qed.

(** X17. The bitmap [MultiKeySignature.createBitmap] builds has as many bits
    set as positions between 0 and 31 were supplied: a negative position is
    accepted and sets nothing. *)
Theorem MultiKeySignature_createBitmap_popcount (bits : list Z) (bitmap : Uint8Array)
        (Hbm : MultiKeySignature.createBitmap bits = Ok bitmap) :
  popcount bitmap = Z.of_nat (length (filter in_slot bits)).
Proof.
  unfold MultiKeySignature.createBitmap in Hbm.
  apply MultiKeySignature_createBitmap_loop_popcount in Hbm;
    [|reflexivity | exact zero_bitmap_unmarked].
  rewrite Hbm. reflexivity.
Qed.

Lemma MultiKeySignature_createBitmap_popcount_witness :
  MultiKeySignature.createBitmap [0; -1; 31] = Ok [x80; x00; x00; x01] /\
  popcount [x80; x00; x00; x01] = Z.of_nat (length (filter in_slot [0; -1; 31])).
Proof.
  split; [reflexivity|].
  apply (MultiKeySignature_createBitmap_popcount [0; -1; 31] [x80; x00; x00; x01]).
  reflexivity.
Defined.

(** X18. As many signatures as distinct positions between 0 and 31 always
    construct: [new MultiKeySignature({ signatures, bitmap: bits })] succeeds,
    keeps the signatures in their order, wrapped, and the bitmap of the
    positions. *)
Theorem MultiKeySignature_constructor_from_positions
        (signatures : list MultiKeySignature.SignatureInput) (bits : list Z)
        (Hlen : length signatures = length bits)
        (Hslot : forall bit, In bit bits -> 0 <= bit < 32)
        (Hnd : NoDup bits) :
  exists bitmap,
    MultiKeySignature.createBitmap bits = Ok bitmap /\
    MultiKeySignature.constructor signatures (MultiKeySignature.OfBits bits)
    = Ok {| MultiKeySignature.signatures := map MultiKeySignature.normalize signatures;
            MultiKeySignature.bitmap := bitmap |}.
Proof.
  destruct (proj2 (MultiKeySignature_createBitmap_Ok_iff bits)) as [bitmap Hbm].
  { split; [|exact Hnd]. intros bit Hin. specialize (Hslot bit Hin). lia. }
  exists bitmap. split; [exact Hbm|].
  pose proof (MultiKeySignature_createBitmap_popcount bits bitmap Hbm) as Hpop.
  rewrite filter_all in Hpop
    by (intros x Hx; apply in_slot_spec; exact (Hslot x Hx)).
  pose proof (popcount_bound bitmap) as Hb.
  rewrite (proj1 (MultiKeySignature_createBitmap_bits bits bitmap 0 Hbm ltac:(lia)))
    in Hb.
  rewrite (MultiKeySignature_constructor_cases
             signatures (MultiKeySignature.OfBits bits) bitmap).
  - rewrite Hpop, Hlen, Z.eqb_refl. reflexivity.
  - change MultiKeySignature.MAX_SIGNATURES_SUPPORTED with 32. lia.
  - exact Hbm.
Qed.

Lemma MultiKeySignature_constructor_from_positions_witness :
  length [MultiKeySignature.OfEd25519 (sample_ed_sig x01);
          MultiKeySignature.OfSecp256k1 (sample_secp_sig x02)]
  = length [0; 2] /\
  exists bitmap,
    MultiKeySignature.createBitmap [0; 2] = Ok bitmap /\
    MultiKeySignature.constructor
      [MultiKeySignature.OfEd25519 (sample_ed_sig x01);
       MultiKeySignature.OfSecp256k1 (sample_secp_sig x02)]
      (MultiKeySignature.OfBits [0; 2])
    = Ok {| MultiKeySignature.signatures :=
              map MultiKeySignature.normalize
                  [MultiKeySignature.OfEd25519 (sample_ed_sig x01);
                   MultiKeySignature.OfSecp256k1 (sample_secp_sig x02)];
            MultiKeySignature.bitmap := bitmap |}.
Proof.
  split; [reflexivity|].
  apply (MultiKeySignature_constructor_from_positions
           [MultiKeySignature.OfEd25519 (sample_ed_sig x01);
            MultiKeySignature.OfSecp256k1 (sample_secp_sig x02)] [0; 2]).
  - reflexivity.
  - intros bit [<-|[<-|[]]]; lia.
  - repeat constructor; simpl; intuition lia.
Defined.

(** ** From [MultiKey.createBitmap] to [MultiKeySignature] *)

Lemma MultiKey_createBitmap_popcount (mk : MultiKey.t) (bits : list Z)
      (bitmap : Uint8Array) :
  MultiKey.createBitmap mk bits = Ok bitmap ->
  popcount bitmap = Z.of_nat (length (filter in_slot bits)).
Proof.
  unfold MultiKey.createBitmap. intros Hbm.
  apply MultiKey_createBitmap_loop_popcount in Hbm;
    [|reflexivity | exact zero_bitmap_unmarked].
  rewrite Hbm. reflexivity.
Qed.

Lemma filter_length_lt {A : Type} (f : A -> bool) (l : list A) (x : A) :
  In x l -> f x = false -> (length (filter f l) < length l)%nat.
Proof.
  induction l as [|a l IH]; intros Hin Hf; [contradiction|].
  pose proof (filter_length_le f l) as Hle.
  destruct Hin as [->|Hin]; simpl.
  - rewrite Hf. lia.
  - specialize (IH Hin Hf). destruct (f a); simpl; lia.
Qed.

(** X19. The bitmap [MultiKey.createBitmap] returns for positions between 0
    and 31 is one the [MultiKeySignature] constructor accepts together with
    one signature per position. *)
Theorem MultiKey_createBitmap_feeds_MultiKeySignature
        (mk : MultiKey.t) (bits : list Z) (bitmap : Uint8Array)
        (signatures : list MultiKeySignature.SignatureInput)
        (Hbm : MultiKey.createBitmap mk bits = Ok bitmap)
        (Hslot : forall bit, In bit bits -> 0 <= bit < 32)
        (Hlen : length signatures = length bits) :
  MultiKeySignature.constructor signatures (MultiKeySignature.OfUint8Array bitmap)
  = Ok {| MultiKeySignature.signatures := map MultiKeySignature.normalize signatures;
          MultiKeySignature.bitmap := bitmap |}.
Proof.
  pose proof (MultiKey_createBitmap_popcount mk bits bitmap Hbm) as Hpop.
  rewrite filter_all in Hpop
    by (intros x Hx; apply in_slot_spec; exact (Hslot x Hx)).
  pose proof (proj1 (MultiKey_createBitmap_bits mk bits bitmap 0 Hbm ltac:(lia)))
    as Hfour.
  pose proof (popcount_bound bitmap) as Hb. rewrite Hfour in Hb.
  rewrite (MultiKeySignature_constructor_cases
             signatures (MultiKeySignature.OfUint8Array bitmap) bitmap).
  - rewrite Hpop, Hlen, Z.eqb_refl. reflexivity.
  - change MultiKeySignature.MAX_SIGNATURES_SUPPORTED with 32. lia.
  - simpl. rewrite Hfour. reflexivity.
Qed.

Lemma MultiKey_createBitmap_feeds_MultiKeySignature_witness :
  MultiKey.createBitmap sample_MultiKey [0; 2] = Ok [xa0; x00; x00; x00] /\
  MultiKeySignature.constructor
    [MultiKeySignature.OfEd25519 (sample_ed_sig x01);
     MultiKeySignature.OfEd25519 (sample_ed_sig x03)]
    (MultiKeySignature.OfUint8Array [xa0; x00; x00; x00])
  = Ok {| MultiKeySignature.signatures :=
            map MultiKeySignature.normalize
                [MultiKeySignature.OfEd25519 (sample_ed_sig x01);
                 MultiKeySignature.OfEd25519 (sample_ed_sig x03)];
          MultiKeySignature.bitmap := [xa0; x00; x00; x00] |}.
Proof.
  split; [reflexivity|].
  apply (MultiKey_createBitmap_feeds_MultiKeySignature
           sample_MultiKey [0; 2] [xa0; x00; x00; x00]).
  - reflexivity.
  - intros bit [<-|[<-|[]]]; lia.
  - reflexivity.
Defined.

(** X20. A position outside 0..31, which [MultiKey.createBitmap] accepts,
    sets no bit: the bitmap it returns then has fewer bits set than
    positions were supplied, and the [MultiKeySignature] constructor refuses
    it with one signature per position, for a count mismatch. *)
Theorem MultiKey_createBitmap_out_of_slot_mismatch
        (mk : MultiKey.t) (bits : list Z) (bitmap : Uint8Array)
        (signatures : list MultiKeySignature.SignatureInput) (bit : Z)
        (Hbm : MultiKey.createBitmap mk bits = Ok bitmap)
        (Hin : In bit bits)
        (Hout : bit < 0 \/ 32 <= bit)
        (Hlen : length signatures = length bits)
        (Hmax : (length signatures <= 32)%nat) :
  popcount bitmap < Z.of_nat (length bits) /\
  MultiKeySignature.constructor signatures (MultiKeySignature.OfUint8Array bitmap)
  = Err SignatureCountMismatch.
Proof.
  pose proof (MultiKey_createBitmap_popcount mk bits bitmap Hbm) as Hpop.
  assert (Hs : in_slot bit = false).
  { destruct (in_slot bit) eqn:E; [|reflexivity].
    apply in_slot_spec in E. lia. }
  pose proof (filter_length_lt in_slot bits bit Hin Hs) as Hlt.
  split; [lia|].
  pose proof (proj1 (MultiKey_createBitmap_bits mk bits bitmap 0 Hbm ltac:(lia)))
    as Hfour.
  rewrite (MultiKeySignature_constructor_cases
             signatures (MultiKeySignature.OfUint8Array bitmap) bitmap).
  - destruct (Z.eqb_spec (popcount bitmap) (Z.of_nat (length signatures)));
      [lia | reflexivity].
  - change MultiKeySignature.MAX_SIGNATURES_SUPPORTED with 32. lia.
  - simpl. rewrite Hfour. reflexivity.
Qed.

Lemma MultiKey_createBitmap_out_of_slot_mismatch_witness :
  MultiKey.createBitmap sample_MultiKey [0; 40] = Ok [x80; x00; x00; x00] /\
  popcount [x80; x00; x00; x00] < Z.of_nat (length [0; 40]) /\
  MultiKeySignature.constructor
    [MultiKeySignature.OfEd25519 (sample_ed_sig x01);
     MultiKeySignature.OfEd25519 (sample_ed_sig x03)]
    (MultiKeySignature.OfUint8Array [x80; x00; x00; x00])
  = Err SignatureCountMismatch.
Proof.
  split; [reflexivity|].
  apply (MultiKey_createBitmap_out_of_slot_mismatch
           sample_MultiKey [0; 40] [x80; x00; x00; x00]
           [MultiKeySignature.OfEd25519 (sample_ed_sig x01);
            MultiKeySignature.OfEd25519 (sample_ed_sig x03)] 40).
  - reflexivity.
  - simpl; auto.
  - right; lia.
  - reflexivity.
  - simpl; lia.
Defined.

(** ** Constructors and decoding of the threshold types *)

(** X21. A [MultiKey] the constructor builds has at least one key, a
    threshold between 1 and the number of keys, the keys in the order given,
    and every key well paired when the [AnyPublicKey] values passed in are. *)
Theorem MultiKey_constructor_invariant
        (publicKeys : list MultiKey.PublicKeyInput) (signaturesRequired : Z)
        (mk : MultiKey.t)
        (Hmk : MultiKey.constructor publicKeys signaturesRequired = Ok mk) :
  MultiKey.publicKeys mk = map MultiKey.normalize publicKeys /\
  MultiKey.signaturesRequired mk = signaturesRequired /\
  1 <= signaturesRequired <= Z.of_nat (length publicKeys) /\
  MultiKey.publicKeys mk <> [] /\
  ((forall k, In (MultiKey.OfAnyPublicKey k) publicKeys -> AnyPublicKey.paired k = true) ->
   Forall (fun k => AnyPublicKey.paired k = true) (MultiKey.publicKeys mk)).
Proof.
  unfold MultiKey.constructor in Hmk.
  destruct (Z.ltb_spec signaturesRequired 1); [discriminate Hmk|].
  destruct (Z.ltb_spec (Z.of_nat (length publicKeys)) signaturesRequired);
    [discriminate Hmk|].
  apply Ok_inj in Hmk. subst mk. simpl.
  split; [reflexivity|]. split; [reflexivity|]. split; [lia|]. split.
  - destruct publicKeys; [simpl in *; lia | discriminate].
  - intros Hany. apply Forall_forall. intros k Hk.
    apply in_map_iff in Hk. destruct Hk as (input & <- & Hin).
    destruct input as [pk|pk|a]; simpl; try reflexivity.
    exact (Hany a Hin).
Qed.

Lemma MultiKey_constructor_invariant_witness :
  MultiKey.constructor sample_keys 2 = Ok sample_MultiKey /\
  MultiKey.publicKeys sample_MultiKey = map MultiKey.normalize sample_keys.
Proof.
  split; [reflexivity|].
  apply (MultiKey_constructor_invariant sample_keys 2 sample_MultiKey).
  reflexivity.
Defined.

(** X22. The [MultiKeySignature] constructor wraps the primitive signatures
    it is given and keeps the [AnySignature] values as they are: the
    signatures of the value it builds are all well paired exactly when the
    [AnySignature] values passed in are. *)
Theorem MultiKeySignature_constructor_pairing
        (signatures : list MultiKeySignature.SignatureInput)
        (bitmap : MultiKeySignature.BitmapInput) (s : MultiKeySignature.t)
        (Hs : MultiKeySignature.constructor signatures bitmap = Ok s) :
  Forall (fun a => AnySignature.paired a = true) (MultiKeySignature.signatures s)
  <-> (forall a, In (MultiKeySignature.OfAnySignature a) signatures ->
                 AnySignature.paired a = true).
Proof.
  apply MultiKeySignature_constructor_Ok in Hs.
  destruct Hs as (_ & _ & -> & _). rewrite Forall_forall. split.
  - intros H a Hin. apply H. apply in_map_iff.
    exists (MultiKeySignature.OfAnySignature a). split; [reflexivity | exact Hin].
  - intros H a Hin. apply in_map_iff in Hin. destruct Hin as (input & <- & Hin).
    destruct input as [sig|sig|a']; simpl; try reflexivity.
    exact (H a' Hin).
Qed.

Lemma MultiKeySignature_constructor_pairing_witness :
  MultiKeySignature.constructor
    [MultiKeySignature.OfAnySignature sample_AnySignature_mispaired]
    (MultiKeySignature.OfBits [0])
  = Ok {| MultiKeySignature.signatures := [sample_AnySignature_mispaired];
          MultiKeySignature.bitmap := [x80; x00; x00; x00] |} /\
  (Forall (fun a => AnySignature.paired a = true) [sample_AnySignature_mispaired]
   <-> (forall a, In (MultiKeySignature.OfAnySignature a)
                     [MultiKeySignature.OfAnySignature sample_AnySignature_mispaired] ->
                  AnySignature.paired a = true)).
Proof.
  split; [reflexivity|].
  apply (MultiKeySignature_constructor_pairing
           [MultiKeySignature.OfAnySignature sample_AnySignature_mispaired]
           (MultiKeySignature.OfBits [0])
           {| MultiKeySignature.signatures := [sample_AnySignature_mispaired];
              MultiKeySignature.bitmap := [x80; x00; x00; x00] |}).
  reflexivity.
Defined.

(** X23. What [MultiKeySignature.deserialize] returns is well formed: a
    bitmap of four bytes, as many signatures as it has bits set, at most 32,
    and each signature well paired and of the length of its scheme. *)
Theorem MultiKeySignature_deserialize_sound (P : Primitives)
        (input rest : list byte) (s : MultiKeySignature.t)
        (Hde : MultiKeySignature.deserialize P input = Ok (s, rest)) :
  length (MultiKeySignature.bitmap s) = 4%nat /\
  Z.of_nat (length (MultiKeySignature.signatures s))
  = popcount (MultiKeySignature.bitmap s) /\
  (length (MultiKeySignature.signatures s) <= 32)%nat /\
  Forall (fun a => AnySignature.paired a = true /\ AnySignature.well_sized P a)
         (MultiKeySignature.signatures s).
Proof.
  destruct (MultiKeySignature_deserialize_count P input rest s Hde) as [Hcount Hfour].
  split; [exact Hfour|]. split; [exact Hcount|]. split.
  - pose proof (popcount_bound (MultiKeySignature.bitmap s)) as Hb.
    rewrite Hfour in Hb. lia.
  - unfold MultiKeySignature.deserialize in Hde.
    bind_inv_as Hde bm Hbm. destruct bm as [bitmap r].
    bind_inv_as Hde sigs Hsigs. destruct sigs as [sigs r'].
    bind_inv_as Hde s' Hs'. apply Ok_inj in Hde. injection Hde as -> _.
    apply MultiKeySignature_constructor_Ok in Hs'.
    destruct Hs' as (_ & _ & -> & _). rewrite map_normalize_OfAnySignature.
    apply (deserializeElements_Forall (AnySignature.deserialize P)
             (fun a => AnySignature.paired a = true /\ AnySignature.well_sized P a)
             _ (fun i x r1 Hx => AnySignature_deserialize_Ok P i r1 x Hx)
             _ _ _ Hsigs).
Qed.

Lemma MultiKeySignature_deserialize_sound_witness :
  MultiKeySignature.deserialize sample_Primitives
    (x04 :: x80 :: x00 :: x00 :: x00 :: sample_ed_sig_bytes)
  = Ok ({| MultiKeySignature.signatures := [sample_AnySignature_ed];
           MultiKeySignature.bitmap := [x80; x00; x00; x00] |}, []) /\
  length [x80; x00; x00; x00] = 4%nat.
Proof.
  split; [vm_compute; reflexivity|].
  apply (MultiKeySignature_deserialize_sound sample_Primitives
           (x04 :: x80 :: x00 :: x00 :: x00 :: sample_ed_sig_bytes) []
           {| MultiKeySignature.signatures := [sample_AnySignature_ed];
              MultiKeySignature.bitmap := [x80; x00; x00; x00] |}).
  vm_compute; reflexivity.
Defined.

(** X24. A serialized bitmap that is not four bytes long never decodes to a
    [MultiKeySignature], whatever follows it. *)
Theorem MultiKeySignature_deserialize_rejects_bitmap_length (P : Primitives)
        (bitmap encoded rest : list byte)
        (Henc : BCS.serializeBytes bitmap = Ok encoded)
        (Hlen : length bitmap <> 4%nat) :
  exists e, MultiKeySignature.deserialize P (encoded ++ rest) = Err e.
Proof.
  unfold BCS.serializeBytes in Henc. bind_inv_as Henc prefix Hprefix.
  apply Ok_inj in Henc. subst encoded.
  apply serializeU32AsUleb128_Ok in Hprefix. destruct Hprefix as [Hr ->].
  rewrite <- app_assoc, MultiKeySignature_deserialize_bitmap by exact Hr.
  destruct (BCS.deserializeElements (AnySignature.deserialize P)
              (Z.to_nat (popcount bitmap)) rest) as [[sigs r]|e];
    [|eexists; reflexivity].
  cbn [bind]. unfold MultiKeySignature.constructor.
  destruct (Z.of_nat (length (map MultiKeySignature.OfAnySignature sigs))
            >? MultiKeySignature.MAX_SIGNATURES_SUPPORTED);
    [eexists; reflexivity|].
  simpl. unfold MultiKeySignature.BITMAP_LEN.
  destruct (Z.eqb_spec (Z.of_nat (length bitmap)) 4) as [E|_]; [lia|].
  eexists. reflexivity.
Qed.

Lemma MultiKeySignature_deserialize_rejects_bitmap_length_witness :
  BCS.serializeBytes [xff; xff; xff] = Ok [x03; xff; xff; xff] /\
  length [xff; xff; xff] <> 4%nat /\
  exists e,
    MultiKeySignature.deserialize sample_Primitives ([x03; xff; xff; xff] ++ [])
    = Err e.
Proof.
  split; [reflexivity|]. split; [simpl; lia|].
  apply (MultiKeySignature_deserialize_rejects_bitmap_length sample_Primitives
           [xff; xff; xff] [x03; xff; xff; xff] []).
  - reflexivity.
  - simpl; lia.
Defined.
